(** * fix_pubspecs_v2.py: the pubspec path-dependency rewriter

    A shallow embedding of [src/dart_web3/fix_pubspecs_v2.py] and the
    properties of its line scanner, its file committer and its driver loop.

    Python [str] values are lists of Unicode code points; the hard-coded
    [replacements] dict is a [gmap]; the body of the [for] loop of [fix_file]
    is a step function on the loop's three local variables, folded over
    [enumerate(lines)]; file and console effects are threaded through an
    explicit world by a small exception monad. *)

From Stdlib Require Import String Ascii.
From stdpp Require Import gmap list.

Local Open Scope Z_scope.

(** ** Python strings *)

Module Py.

(** A [str] is a sequence of code points. *)
Abbreviation char := N (only parsing).
Abbreviation str := (list N) (only parsing).

(** A literal of the source, written as a Rocq string (ASCII only). *)
Definition lit (s : string) : str := N_of_ascii <$> list_ascii_of_string s.

Definition LF : char := 10%N.
Definition CR : char := 13%N.

(** [str.isspace] on one code point: the table of CPython's
    [_PyUnicode_IsWhitespace]. *)
Definition isspace (c : char) : bool :=
  ((9 <=? c) && (c <=? 13) || (28 <=? c) && (c <=? 32) || (c =? 133) || (c =? 160)
   || (c =? 5760) || (8192 <=? c) && (c <=? 8202) || (c =? 8232) || (c =? 8233)
   || (c =? 8239) || (c =? 8287) || (c =? 12288))%N.

Fixpoint lstrip (s : str) : str :=
  match s with
  | c :: s' => if isspace c then lstrip s' else s
  | [] => []
  end.

Definition rstrip (s : str) : str := reverse (lstrip (reverse s)).

(** [s.strip()] *)
Definition strip (s : str) : str := rstrip (lstrip s).

Fixpoint startswith (s pre : str) {struct pre} : bool :=
  match pre, s with
  | [], _ => true
  | p :: pre', c :: s' => (c =? p)%N && startswith s' pre'
  | _ :: _, [] => false
  end.

(** [s.endswith(suf)] *)
Definition endswith (s suf : str) : bool :=
  startswith (reverse s) (reverse suf).

(** [s[:k]], with Python's treatment of a negative or too large bound. *)
Definition slice_to (s : str) (k : Z) : str :=
  let n := Z.of_nat (length s) in
  let k' := if k <? 0 then Z.max 0 (k + n) else Z.min k n in
  take (Z.to_nat k') s.

Fixpoint find_from (s sub : str) (i : Z) : Z :=
  if startswith s sub then i
  else match s with
       | [] => -1
       | _ :: s' => find_from s' sub (i + 1)
       end.

(** [s.find(sub)]: the lowest index where [sub] occurs in [s], or [-1]. *)
Definition find (s sub : str) : Z := find_from s sub 0.

(** [sub in s] *)
Fixpoint contains (s sub : str) : bool :=
  startswith s sub
  || match s with
     | [] => false
     | _ :: s' => contains s' sub
     end.

(** [''.join(parts)] *)
Definition join (parts : list str) : str := concat parts.

End Py.

Import Py.

(** ** The replacement table (source lines 12-49) *)

Definition replacements_items : list (str * str) :=
  [ (lit "web3_universal_core", lit "^0.1.1");
    (lit "web3_universal_crypto", lit "^0.2.0");
    (lit "web3_universal_abi", lit "^0.1.1");
    (lit "web3_universal_chains", lit "^0.1.0+1");
    (lit "web3_universal_signer", lit "^0.1.1");
    (lit "web3_universal_provider", lit "^0.1.0+1");
    (lit "web3_universal_client", lit "^0.1.1+1");
    (lit "web3_universal_contract", lit "^0.1.0+1");
    (lit "web3_universal_ens", lit "^0.1.1+1");
    (lit "web3_universal_aa", lit "^0.1.1+1");
    (lit "web3_universal_reown", lit "^0.1.1");
    (lit "web3_universal_swap", lit "^0.1.0+2");
    (lit "web3_universal_price", lit "^0.1.1");
    (lit "web3_universal_utxo", lit "^0.1.0+1");
    (lit "web3_universal_bc_ur", lit "^0.1.0+1");
    (lit "web3_universal_keystone", lit "^0.1.0+1");
    (lit "web3_universal_ledger", lit "^0.1.0+1");
    (lit "web3_universal_trezor", lit "^0.1.0+1");
    (lit "web3_universal_mpc", lit "^0.1.0+1");
    (lit "web3_universal_nft", lit "^0.1.1+1");
    (lit "web3_universal_multicall", lit "^0.1.0+2");
    (lit "web3_universal_mev", lit "^0.1.1");
    (lit "web3_universal_staking", lit "^0.1.1+1");
    (lit "web3_universal_history", lit "^0.1.1+1");
    (lit "web3_universal_events", lit "^0.1.0+2");
    (lit "web3_universal_solana", lit "^0.1.1");
    (lit "web3_universal_bitcoin", lit "^0.1.1");
    (lit "web3_universal_aptos", lit "^0.1.0");
    (lit "web3_universal_ton", lit "^0.1.1");
    (lit "web3_universal_tron", lit "^0.1.1");
    (lit "web3_universal_polkadot", lit "^0.1.1");
    (lit "web3_universal_cosmos", lit "^0.1.1");
    (lit "web3_universal_debug", lit "^0.1.1");
    (lit "web3_universal_bridge", lit "^0.1.0+2");
    (lit "web3_universal_dapp", lit "^0.1.1+1");
    (lit "web3_universal_compat", lit "^0.1.0") ].

Definition replacements : gmap str str := list_to_map replacements_items.

(** ** The line scanner: the [for] loop of [fix_file] (source lines 56-83) *)

(** The three local variables the loop updates. *)
Record scan_state : Type := ScanState {
  new_lines : list str;
  modified : bool;
  skip_next : bool
}.

(** Lines 67-78: the replacement line when every nested test succeeds,
    [None] when control falls through to [new_lines.append(line)]. *)
Definition rewritten (lines : list str) (i : nat) (line : str) : option str :=
  let stripped := strip line in
  if endswith stripped (lit ":") then
    let pkg_name := slice_to stripped (-1) in
    match replacements !! pkg_name with
    | Some version =>
        if bool_decide (i + 1 < length lines)%nat then
          match lines !! (i + 1)%nat with
          | Some next_line =>
              if contains next_line (lit "path:") then
                let indent := slice_to line (find line pkg_name) in
                Some (indent ++ pkg_name ++ lit ": " ++ version ++ [LF])
              else None
          | None => None
          end
        else None
    | None => None
    end
  else None.

(** One iteration of the loop body (lines 61-83). *)
Definition loop_body (lines : list str) (st : scan_state) (item : nat * str) : scan_state :=
  let '(i, line) := item in
  if skip_next st then
    ScanState (new_lines st) (modified st) false
  else
    match rewritten lines i line with
    | Some r => ScanState (new_lines st ++ [r]) true true
    | None => ScanState (new_lines st ++ [line]) (modified st) (skip_next st)
    end.

(** [enumerate(lines)] *)
Definition enumerate (lines : list str) : list (nat * str) :=
  zip (seq 0 (length lines)) lines.

(** Lines 56-83: the loop run from its initial state. *)
Definition scanner (lines : list str) : scan_state :=
  foldl (loop_body lines) (ScanState [] false false) (enumerate lines).

(** ** Files, console and exceptions *)

(** The exceptions that matter here. [OSError] stands for itself and its
    subclasses ([FileNotFoundError], [PermissionError], ...); it,
    [UnicodeDecodeError] and [UnicodeEncodeError] derive from [Exception].
    [KeyboardInterrupt] derives from [BaseException] only, so
    [except Exception] lets it through. *)
Inductive exn : Type :=
  | OSError (detail : str)
  | UnicodeDecodeError (detail : str)
  | UnicodeEncodeError (detail : str)
  | KeyboardInterrupt.

Definition is_Exception (e : exn) : bool :=
  match e with
  | OSError _ | UnicodeDecodeError _ | UnicodeEncodeError _ => true
  | KeyboardInterrupt => false
  end.

(** [str(e)], what the f-string of line 91 interpolates. *)
Definition exn_str (e : exn) : str :=
  match e with
  | OSError d | UnicodeDecodeError d | UnicodeEncodeError d => d
  | KeyboardInterrupt => []
  end.

Inductive mode : Type := ModeR | ModeW.

(** What a run does to the outside: calls of [open], text that reached a
    file, calls of [print] that completed. *)
Inductive event : Type :=
  | Open (path : str) (m : mode)
  | Wrote (path : str) (data : str)
  | Print (message : str).

(** The files (path ↦ content) and the history of effects. The content of a
    file is its decoded text; a byte [b] that belongs to no complete
    character, as a write that failed in the middle of a character leaves
    behind, is kept as the value [stray b], above every code point. *)
Record world : Type := World {
  disk : gmap (list N) (list N);
  trace : list event
}.

(** The surroundings of a run: the directory tree as [os.walk] lists it
    (it skips what it cannot read), [os.path.join], the other paths that
    name the same file as a path (hard links, symbolic links, other
    spellings), the exception [open] raises for a path that names no file,
    and which operations fail. A write that fails does so after [n] whole
    characters and the bytes [torn] of the next one reached the file. A call
    of [print] fails when the console is closed or cannot encode the
    message. *)
Record env : Type := Env {
  os_walk : str → list (str * list str * list str);
  os_path_join : str → str → str;
  os_links : str → list str;
  not_found : str → exn;
  open_fault : str → mode → option exn;
  read_fault : str → option exn;
  write_fault : str → option (nat * list N * exn);
  print_fault : str → option exn
}.

(** A byte of the file that is part of no complete character. *)
Definition stray (b : N) : N := (1114112 + b)%N.

Inductive outcome (A : Type) : Type :=
  | Returned (a : A)
  | Raised (e : exn).
Arguments Returned {A} a.
Arguments Raised {A} e.

(** A computation with effects on the world that returns or raises. *)
Definition IO (A : Type) : Type := world → outcome A * world.

#[global] Instance IO_ret : MRet IO := λ A a w, (Returned a, w).

#[global] Instance IO_bind : MBind IO := λ A B k m w,
  match m w with
  | (Returned a, w') => k a w'
  | (Raised e, w') => (Raised e, w')
  end.

Definition log (ev : event) : IO unit :=
  λ w, (Returned tt, World (disk w) (trace w ++ [ev])).

Definition raise {A : Type} (e : exn) : IO A := λ w, (Raised e, w).

(** [try: body / except Exception as e: handler(e)] *)
Definition try_except (body : IO unit) (handler : exn → IO unit) : IO unit :=
  λ w,
    match body w with
    | (Raised e, w') => if is_Exception e then handler e w' else (Raised e, w')
    | r => r
    end.

(** [for x in xs: body(x)] *)
Fixpoint for_each {A : Type} (xs : list A) (body : A → IO unit) : IO unit :=
  match xs with
  | [] => mret tt
  | x :: xs' => body x ;; for_each xs' body
  end.

(** Text mode with [newline=None]: [\r\n] and [\r] are read as [\n]. *)
Fixpoint universal_newlines (s : str) : str :=
  match s with
  | [] => []
  | c :: s' =>
      if (c =? CR)%N then
        LF :: match s' with
              | d :: s'' =>
                  if (d =? LF)%N then universal_newlines s''
                  else universal_newlines s'
              | [] => []
              end
      else c :: universal_newlines s'
  end.

(** The lines of a text, each with its terminator; the last one has none
    when the text does not end with a newline. *)
Fixpoint splitlines (s : str) : list str :=
  match s with
  | [] => []
  | c :: s' =>
      if (c =? LF)%N then [c] :: splitlines s'
      else match splitlines s' with
           | [] => [[c]]
           | l :: ls => (c :: l) :: ls
           end
  end.

(** [f.readlines()] on the decoded text of a file. *)
Definition readlines (text : str) : list str := splitlines (universal_newlines text).

(** Lines 53-54: [with open(file_path, 'r', encoding='utf-8') as f:
    lines = f.readlines()]. *)
Definition read_lines (E : env) (file_path : str) : IO (list str) :=
  log (Open file_path ModeR) ;;
  match open_fault E file_path ModeR with
  | Some e => raise e
  | None =>
      λ w, match disk w !! file_path with
           | None => (Raised (not_found E file_path), w)
           | Some text =>
               match read_fault E file_path with
               | Some e => (Raised e, w)
               | None => (Returned (readlines text), w)
               end
           end
  end.

(** The disk once the file at [file_path] holds [data]: every path that
    names this file shows the new content. *)
Definition put (E : env) (file_path data : str) (d : gmap (list N) (list N))
    : gmap (list N) (list N) :=
  foldr (λ q d', <[q := data]> d') d (file_path :: os_links E file_path).

Definition store (E : env) (file_path data : str) : IO unit :=
  λ w, (Returned tt, World (put E file_path data (disk w)) (trace w)).

(** Lines 86-87: [with open(file_path, 'w', encoding='utf-8', newline='\n')
    as f: f.writelines(new_lines)]. Opening for writing truncates the file;
    the text is written without newline translation. *)
Definition write_lines (E : env) (file_path : str) (new_lines : list str) : IO unit :=
  log (Open file_path ModeW) ;;
  match open_fault E file_path ModeW with
  | Some e => raise e
  | None =>
      store E file_path [] ;;
      match write_fault E file_path with
      | Some (n, torn, e) =>
          let part := take n (join new_lines) ++ (stray <$> torn) in
          store E file_path part ;; log (Wrote file_path part) ;; raise e
      | None =>
          store E file_path (join new_lines) ;;
          log (Wrote file_path (join new_lines))
      end
  end.

(** [print(message)]: the line reaches the console, or the call raises. *)
Definition print (E : env) (message : str) : IO unit :=
  match print_fault E message with
  | Some e => raise e
  | None => log (Print message)
  end.

(** ** [fix_file] (source lines 51-91) *)

(** The [try] block, lines 53-88. *)
Definition fix_file_body (E : env) (file_path : str) : IO unit :=
  lines ← read_lines E file_path;
  let st := scanner lines in
  if modified st then
    write_lines E file_path (new_lines st) ;;
    print E (lit "Fixed " ++ file_path)
  else mret tt.

Definition fix_file (E : env) (file_path : str) : IO unit :=
  try_except (fix_file_body E file_path)
    (λ e, print E (lit "Error processing " ++ file_path ++ lit ": " ++ exn_str e)).

(** ** The driver loop (source lines 5-8 and 93-96) *)

Definition roots : list str :=
  [ lit "D:\OtherProject\mine\dart_web3\dart_web3\packages";
    lit "D:\OtherProject\mine\dart_web3\dart_web3\web3_universal" ].

Definition main (E : env) : IO unit :=
  for_each roots (λ base_root,
    for_each (os_walk E base_root) (λ '(root, dirs, files),
      if bool_decide (lit "pubspec.yaml" ∈ files) then
        fix_file E (os_path_join E root (lit "pubspec.yaml"))
      else mret tt)).

(** ** Vocabulary of the specification *)

(** A line of text [s] with its terminator, as [readlines] returns it. *)
Definition ln (s : string) : str := lit s ++ [LF].

Definition COLON : char := 58%N.

(** The path indicator test (source line 74). *)
Definition has_path (line : str) : bool := contains line (lit "path:").

(** A name line: its trimmed form is a key of the table followed by a colon. *)
Definition name_line (line : str) : Prop :=
  set_Exists (λ k, strip line = k ++ lit ":") (dom replacements).

#[global] Instance name_line_dec line : Decision (name_line line).
Proof. unfold name_line. apply _. Defined.

(** The leading-whitespace prefix of a line. *)
Definition leading_ws (line : str) : str :=
  take (length line - length (lstrip line))%nat line.

(** Position [i] holds the name line of a dependency block: a name line
    immediately followed by a line with the path indicator. *)
Definition opens_block (lines : list str) (i : nat) : bool :=
  match lines !! i, lines !! S i with
  | Some l, Some n => bool_decide (name_line l) && has_path n
  | _, _ => false
  end.

(** Position [i] is part of a dependency block, as its name line or as the
    path line after it. *)
Definition in_block (lines : list str) (i : nat) : bool :=
  opens_block lines i
  || match i with
     | S j => opens_block lines j
     | O => false
     end.

(** The lines outside every dependency block, in the order of the input. *)
Definition copied (lines : list str) : list str :=
  (filter (λ p, in_block lines p.1 = false) (enumerate lines)).*2.

(** The number of dependency blocks of a line sequence. *)
Definition count_blocks (lines : list str) : nat :=
  length (filter (λ i, opens_block lines i = true) (seq 0 (length lines))).

(** Every line but the last ends with a newline, as in what [readlines]
    returns. *)
Fixpoint terminated (lines : list str) : Prop :=
  match lines with
  | l :: (_ :: _) as rest => last l = Some LF ∧ terminated rest
  | _ => True
  end.

(** A string made of whitespace only. *)
Definition blank (s : str) : Prop := Forall (λ c, isspace c = true) s.

(** Neither end of the string is whitespace: [strip] leaves it alone. *)
Definition tight (s : str) : Prop := lstrip s = s ∧ rstrip s = s.

#[global] Instance tight_dec s : Decision (tight s).
Proof. unfold tight. apply _. Defined.

(** What the scanner relies on for each entry [name ↦ version]: both start
    with a visible character, [name: version] has no whitespace at either
    end and does not end with a colon, neither [name:] nor the pinned line
    contains the path indicator, and no carriage return occurs. *)
Definition entry_check (kv : str * str) : bool :=
  let '(k, v) := kv in
  match k with c :: _ => negb (isspace c) | [] => false end
  && bool_decide (tight (k ++ lit ": " ++ v))
  && negb (endswith (k ++ lit ": " ++ v) (lit ":"))
  && negb (contains (k ++ lit ":") (lit "path:"))
  && negb (contains (k ++ lit ": " ++ v ++ [LF]) (lit "path:"))
  && match v with c :: _ => negb (isspace c) | [] => false end
  && bool_decide (CR ∉ k ++ lit ": " ++ v ++ [LF]).

(** An event that opens a file for writing or puts text into it. *)
Definition is_write (ev : event) : bool :=
  match ev with
  | Open _ ModeW | Wrote _ _ => true
  | _ => false
  end.

(** The manifests the driver reaches, in the order it reaches them. *)
Definition manifests (E : env) : list str :=
  base_root ← roots;
  '(root, dirs, files) ← os_walk E base_root;
  if bool_decide (lit "pubspec.yaml" ∈ files)
  then [os_path_join E root (lit "pubspec.yaml")] else [].

(** Every failure of a file operation is an I/O failure, an [Exception]. *)
Definition io_failures (E : env) : Prop :=
  (∀ p, is_Exception (not_found E p) = true)
  ∧ (∀ p m e, open_fault E p m = Some e → is_Exception e = true)
  ∧ (∀ p e, read_fault E p = Some e → is_Exception e = true)
  ∧ (∀ p n torn e, write_fault E p = Some (n, torn, e) → is_Exception e = true).

(** The console takes every line: no call of [print] fails. *)
Definition console_ok (E : env) : Prop := ∀ message, print_fault E message = None.

(** Reading the manifest at [p] succeeds and gives [text]. *)
Definition read_ok (E : env) (p : list N) (w : world) (text : list N) : Prop :=
  open_fault E p ModeR = None ∧ disk w !! p = Some text ∧ read_fault E p = None.

(** A text as a strict UTF-8 decoder returns it: code points only. *)
Definition decoded (text : list N) : Prop := Forall (λ c, (c < 1114112)%N) text.

(** The paths that name the file at [p]. *)
Definition names_of (E : env) (p : list N) : list (list N) := p :: os_links E p.

(** ** The scan with the module namespace threaded through *)







(** ** The scanner as a recursion over the remaining lines *)

(** Lines 67-70 and 77-78 without the look-ahead: the version line that
    replaces a name line. *)
Definition pinned (line : str) : option str :=
  let stripped := strip line in
  if endswith stripped (lit ":") then
    let pkg_name := slice_to stripped (-1) in
    match replacements !! pkg_name with
    | Some version =>
        let indent := slice_to line (find line pkg_name) in
        Some (indent ++ pkg_name ++ lit ": " ++ version ++ [LF])
    | None => None
    end
  else None.

(** The block test at the head of the remaining lines: the replacement line
    when [l] is a name line and the line after it has the path indicator. *)
Definition block (l : str) (rest : list str) : option str :=
  match pinned l, rest with
  | Some r, next_line :: _ => if has_path next_line then Some r else None
  | _, _ => None
  end.

Fixpoint out_from (skip : bool) (ls : list str) : list str :=
  match ls with
  | [] => []
  | l :: rest =>
      if skip then out_from false rest
      else match block l rest with
           | Some r => r :: out_from true rest
           | None => l :: out_from false rest
           end
  end.

Fixpoint mod_from (skip : bool) (ls : list str) : bool :=
  match ls with
  | [] => false
  | l :: rest =>
      if skip then mod_from false rest
      else match block l rest with
           | Some r => true
           | None => mod_from false rest
           end
  end.

(** [opens_block] at the head of the remaining lines. *)
Definition opens (l : str) (rest : list str) : bool :=
  match rest with
  | n :: _ => bool_decide (name_line l) && has_path n
  | [] => false
  end.

(** [copied] and [count_blocks] by recursion; [after_name] tells that the
    line before the head opens a block. *)
Section copied_from.
Variable opens_here : list N → list (list N) → bool.

Fixpoint copied_with (after_name : bool) (ls : list (list N)) : list (list N) :=
  match ls with
  | [] => []
  | l :: rest =>
      (if opens_here l rest || after_name then [] else [l])
      ++ copied_with (opens_here l rest) rest
  end.

End copied_from.

Definition copied_from : bool → list str → list str := copied_with opens.

Fixpoint count_from (ls : list str) : nat :=
  match ls with
  | [] => 0
  | l :: rest => ((if opens l rest then 1 else 0) + count_from rest)%nat
  end.

(** The message of source line 91. *)
Definition error_line (file_path : list N) (e : exn) : list N :=
  lit "Error processing " ++ file_path ++ lit ": " ++ exn_str e.

(** ** Sample manifests *)

Definition core_name : list N := ln "  web3_universal_core:".
Definition core_path : list N := ln "    path: ../core".
Definition core_pinned : list N := ln "  web3_universal_core: ^0.1.1".

(** Two path dependencies. *)
Definition two_blocks : list (list N) :=
  [ core_name; core_path;
    ln "  web3_universal_crypto:"; ln "    path: ../crypto" ].

(** A name line without a path, followed by a path dependency. *)
Definition stacked_names : list (list N) :=
  [ core_name; ln "  web3_universal_crypto:"; ln "    path: ../crypto" ].

(** A manifest without any path dependency. *)
Definition plain_manifest : list (list N) :=
  [ ln "name: demo"; ln "dependencies:"; ln "  web3_universal_core: ^0.1.1";
    ln "  http: ^1.0.0" ].

(** ** Sample surroundings *)

Definition sample_root : list N :=
  lit "D:\OtherProject\mine\dart_web3\dart_web3\packages".

Definition sample_path : list N :=
  lit "D:\OtherProject\mine\dart_web3\dart_web3\packages\core\pubspec.yaml".

Definition sample_walk (base_root : list N) : list (list N * list (list N) * list (list N)) :=
  if bool_decide (base_root = sample_root) then
    [ (sample_root, [lit "core"], []);
      (sample_root ++ lit "\core", [], [lit "pubspec.yaml"]) ]
  else [].

(** [ntpath.join] on two plain components: a backslash between them. *)
Definition sample_join (root name : list N) : list N := root ++ [92%N] ++ name.

(** [repr] of a path made of printable ASCII without quotes: in single
    quotes, every backslash doubled. *)
Definition repr_plain (p : list N) : list N :=
  [39%N] ++ (c ← p; if (c =? 92)%N then [92%N; 92%N] else [c]) ++ [39%N].

(** [FileNotFoundError] as [open] raises it. *)
Definition sample_not_found (p : list N) : exn :=
  OSError (lit "[Errno 2] No such file or directory: " ++ repr_plain p).

(** Nothing fails. *)
Definition quiet : env :=
  Env sample_walk sample_join (λ _, []) sample_not_found
    (λ _ _, None) (λ _, None) (λ _, None) (λ _, None).

(** The device fails once a file is open for writing: the file can be opened
    and nothing can be written to it. *)
Definition write_fails : env :=
  Env sample_walk sample_join (λ _, []) sample_not_found
    (λ _ _, None) (λ _, None)
    (λ _, Some (0%nat, [], OSError (lit "[Errno 5] Input/output error")))
    (λ _, None).

Definition sample_text : list N :=
  join [ln "dependencies:"; core_name; core_path].

Definition sample_world : world := World {[ sample_path := sample_text ]} [].

Definition plain_world : world := World {[ sample_path := join plain_manifest ]} [].

Definition other_path : list N :=
  lit "D:\OtherProject\mine\dart_web3\dart_web3\packages\abi\pubspec.yaml".

(** A world with a second manifest and an earlier console line. *)
Definition busy_world : world :=
  World {[ sample_path := sample_text; other_path := join two_blocks ]}
        [Print (lit "earlier")].

(** ** Further vocabulary: text lines and quiet surroundings *)

(** A line that ends with its only newline. *)
Definition full_line (l : list N) : Prop := ∃ body, l = body ++ [LF] ∧ LF ∉ body.

(** The last line of a text may lack the newline; it is not empty. *)
Definition last_line (l : list N) : Prop := full_line l ∨ (l ≠ [] ∧ LF ∉ l).

(** The shape of what [readlines] returns: full lines, then a last line. *)
Fixpoint text_lines (ls : list (list N)) : Prop :=
  match ls with
  | [] => True
  | l :: rest =>
      match rest with
      | [] => last_line l
      | _ :: _ => full_line l ∧ text_lines rest
      end
  end.

(** No operation on the file [p] fails. *)
Definition no_faults_at (E : env) (p : list N) : Prop :=
  open_fault E p ModeR = None ∧ read_fault E p = None
  ∧ open_fault E p ModeW = None ∧ write_fault E p = None.

(** An event that prints a line on the console. *)
Definition is_print (ev : event) : bool :=
  match ev with
  | Print _ => true
  | _ => false
  end.

(** The message of source line 88. *)
Definition fixed_line (file_path : list N) : list N := lit "Fixed " ++ file_path.

(** A name line indented with a tab and a space, with trailing blanks. *)
Definition tabbed_name : list N :=
  [9%N] ++ lit " web3_universal_crypto:  " ++ [LF].

(** A comment that happens to contain the path indicator. *)
Definition comment_with_path : list N := ln "    # path: see the README".

(** A dependency the table does not know. *)
Definition unknown_name : list N := ln "  flutter_test:".

(** Two packages under the first root, each with a manifest. *)
Definition pair_walk (base_root : list N) : list (list N * list (list N) * list (list N)) :=
  if bool_decide (base_root = sample_root) then
    [ (sample_root, [lit "core"; lit "abi"], []);
      (sample_root ++ lit "\core", [], [lit "pubspec.yaml"]);
      (sample_root ++ lit "\abi", [], [lit "pubspec.yaml"]) ]
  else [].

(** The first manifest cannot be opened and the console is closed. *)
Definition closed_console : env :=
  Env pair_walk sample_join (λ _, []) sample_not_found
    (λ p m, if bool_decide (p = sample_path)
            then Some (OSError (lit "[Errno 13] Permission denied: " ++ repr_plain p))
            else None)
    (λ _, None) (λ _, None)
    (λ _, Some (OSError (lit "[Errno 9] Bad file descriptor"))).

(** The manifest is reachable under a second path, a hard link. *)
Definition linked_path : list N :=
  lit "D:\OtherProject\mine\dart_web3\dart_web3\packages\core\pubspec.bak".

Definition linked : env :=
  Env sample_walk sample_join
    (λ p, if bool_decide (p = sample_path) then [linked_path] else [])
    sample_not_found (λ _ _, None) (λ _, None) (λ _, None) (λ _, None).

Definition linked_world : world :=
  World {[ sample_path := sample_text; linked_path := sample_text;
           other_path := join two_blocks ]} [].

(** A manifest with Windows line ends. *)
Definition crlf_text : list N :=
  lit "dependencies:" ++ [CR; LF] ++ lit "  web3_universal_core:" ++ [CR; LF]
  ++ lit "    path: ../core" ++ [CR; LF].

Definition crlf_world : world := World {[ sample_path := crlf_text ]} [].

(** ** Facts about the string primitives *)

Module PyFacts.

Lemma blank_reverse ws : blank ws → blank (reverse ws).
Proof. unfold blank. intros H. by apply Forall_reverse. Qed.

Lemma lstrip_split s :
  ∃ ws, blank ws ∧ s = ws ++ lstrip s.
Proof.
  induction s as [|c s [ws [Hb He]]]; simpl.
  - exists []. split; [constructor | done].
  - destruct (isspace c) eqn:Hc.
    + exists (c :: ws). split; [by constructor | simpl; by f_equal].
    + exists []. split; [constructor | done].
Qed.

Lemma lstrip_blank_app ws s : blank ws → lstrip (ws ++ s) = lstrip s.
Proof.
  induction 1 as [|c ws Hc _ IH]; simpl; [done | by rewrite Hc].
Qed.

Lemma rstrip_blank_app ws s : blank ws → rstrip (s ++ ws) = rstrip s.
Proof.
  intros Hb. unfold rstrip. rewrite reverse_app.
  by rewrite lstrip_blank_app by by apply blank_reverse.
Qed.

Lemma lstrip_head_app c s t : isspace c = false → lstrip ((c :: s) ++ t) = (c :: s) ++ t.
Proof. intros Hc. simpl. by rewrite Hc. Qed.

(** [strip] removes whitespace at both ends and nothing else. *)
Lemma strip_split s :
  ∃ ws1 ws2, blank ws1 ∧ blank ws2 ∧ s = ws1 ++ strip s ++ ws2.
Proof.
  destruct (lstrip_split s) as [ws1 [Hb1 He1]].
  destruct (lstrip_split (reverse (lstrip s))) as [ws2 [Hb2 He2]].
  exists ws1, (reverse ws2). split; [done|]. split; [by apply blank_reverse|].
  unfold strip, rstrip. rewrite <- reverse_app, <- He2, reverse_involutive. done.
Qed.

Lemma strip_tight ws1 ws2 s :
  blank ws1 → blank ws2 → tight s → strip (ws1 ++ s ++ ws2) = s.
Proof.
  intros Hb1 Hb2 [Hl Hr]. unfold strip. rewrite lstrip_blank_app by done.
  destruct s as [|c s].
  - simpl. destruct (lstrip_split ws2) as [ws [_ He]].
    assert (lstrip ws2 = []) as ->; [|done].
    rewrite <- (app_nil_r ws2). rewrite lstrip_blank_app by done. done.
  - assert (isspace c = false) as Hc.
    { simpl in Hl. destruct (isspace c); [|done].
      exfalso. destruct (lstrip_split s) as [ws [_ He]].
      apply (f_equal length) in Hl. apply (f_equal length) in He.
      rewrite length_app in He. simpl in Hl. lia. }
    rewrite lstrip_head_app by done. by rewrite rstrip_blank_app.
Qed.

Lemma startswith_app s t : startswith (s ++ t) s = true.
Proof. induction s as [|c s IH]; simpl; [done|]. by rewrite N.eqb_refl, IH. Qed.

Lemma startswith_blank ws sub d :
  blank ws → last sub = Some d → isspace d = false → startswith ws sub = false.
Proof.
  intros Hb. revert sub. induction Hb as [|c ws Hc _ IH]; intros sub Hl Hd.
  - destruct sub; [done | done].
  - destruct sub as [|p sub]; [done|]. simpl.
    destruct sub as [|p' sub].
    + simpl in Hl. injection Hl as ->.
      destruct (N.eqb_spec c d) as [->|]; [congruence | done].
    + rewrite (IH (p' :: sub)); [by rewrite andb_false_r | done | done].
Qed.

Lemma startswith_blank_r ws s sub d :
  blank ws → last sub = Some d → isspace d = false →
  startswith (s ++ ws) sub = startswith s sub.
Proof.
  intros Hb. revert sub. induction s as [|c s IH]; intros sub Hl Hd.
  - simpl. rewrite (startswith_blank ws sub d) by done. by destruct sub.
  - destruct sub as [|p sub]; [done|]. simpl.
    destruct sub as [|p' sub]; [done|].
    by rewrite (IH (p' :: sub)).
Qed.

Lemma contains_blank_l ws s c sub :
  blank ws → isspace c = false →
  contains (ws ++ s) (c :: sub) = contains s (c :: sub).
Proof.
  intros Hb Hc. induction Hb as [|w ws Hw _ IH]; [done|].
  cbn [app contains startswith]. rewrite IH.
  destruct (N.eqb_spec w c) as [->|]; [congruence | done].
Qed.

Lemma contains_blank_r ws s sub d :
  blank ws → last sub = Some d → isspace d = false →
  contains (s ++ ws) sub = contains s sub.
Proof.
  intros Hb Hl Hd. induction s as [|c s IH].
  - simpl. transitivity false.
    + clear -Hb Hl Hd. induction Hb as [|w ws Hw Hb IH].
      * by destruct sub.
      * cbn [contains]. rewrite IH, orb_false_r.
        apply (startswith_blank (w :: ws) sub d); [by constructor | done | done].
    + by destruct sub.
  - cbn [app contains]. rewrite IH.
    by rewrite <- (startswith_blank_r ws (c :: s) sub d).
Qed.

(** Whitespace around a line does not decide whether it contains a
    needle that starts and ends with a visible character. *)
Lemma contains_strip s c sub d :
  isspace c = false → last (c :: sub) = Some d → isspace d = false →
  contains s (c :: sub) = contains (strip s) (c :: sub).
Proof.
  intros Hc Hl Hd. destruct (strip_split s) as (ws1 & ws2 & Hb1 & Hb2 & He).
  rewrite He at 1. rewrite contains_blank_l by done.
  by rewrite (contains_blank_r ws2 _ _ d).
Qed.

Lemma find_from_unfold s sub i :
  find_from s sub i =
  if startswith s sub then i
  else match s with [] => -1 | _ :: s' => find_from s' sub (i + 1) end.
Proof. by destruct s. Qed.

Lemma find_from_blank ws c k t i :
  blank ws → isspace c = false →
  find_from (ws ++ (c :: k) ++ t) (c :: k) i = i + Z.of_nat (length ws).
Proof.
  intros Hb Hc. revert i. induction Hb as [|w ws Hw _ IH]; intros i.
  - rewrite app_nil_l, find_from_unfold, startswith_app. simpl. lia.
  - rewrite find_from_unfold. cbn [app startswith].
    destruct (N.eqb_spec w c) as [->|]; [congruence|].
    cbn [andb]. rewrite IH. rewrite length_cons. lia.
Qed.

Lemma slice_to_app s t : slice_to (s ++ t) (Z.of_nat (length s)) = s.
Proof.
  unfold slice_to. rewrite length_app.
  destruct (Z.ltb_spec (Z.of_nat (length s)) 0); [lia|].
  rewrite Z.min_l by lia. rewrite Nat2Z.id. by rewrite take_app_length.
Qed.

Lemma slice_to_snoc s c : slice_to (s ++ [c]) (-1) = s.
Proof.
  unfold slice_to. rewrite length_app. simpl.
  replace (Z.to_nat _) with (length s) by lia. by rewrite take_app_length.
Qed.

Lemma endswith_snoc s c d : endswith (s ++ [c]) [d] = (c =? d)%N.
Proof.
  unfold endswith. rewrite reverse_app. simpl. by rewrite andb_true_r.
Qed.

Lemma endswith_char s d :
  endswith s [d] = true → s = slice_to s (-1) ++ [d].
Proof.
  destruct s as [|c s _] using rev_ind; [done|].
  rewrite endswith_snoc, slice_to_snoc. by intros ->%N.eqb_eq.
Qed.

End PyFacts.

Import PyFacts.

(** ** Facts about the replacement table *)

Lemma replacements_checked : forallb entry_check replacements_items = true.
Proof. vm_compute. reflexivity. Qed.

Lemma replacements_NoDup : NoDup (replacements_items.*1).
Proof. apply (bool_decide_unpack _). vm_compute. exact I. Qed.

Lemma replacements_lookup k v :
  replacements !! k = Some v ↔ (k, v) ∈ replacements_items.
Proof.
  unfold replacements. symmetry. apply elem_of_list_to_map, replacements_NoDup.
Qed.

Lemma replacements_entry k v :
  replacements !! k = Some v → entry_check (k, v) = true.
Proof.
  intros H%replacements_lookup%list_elem_of_In.
  pose proof replacements_checked as Hc.
  rewrite forallb_forall in Hc. by apply Hc.
Qed.

(** ** The loop and the recursion *)

Lemma rewritten_block pre l rest :
  rewritten (pre ++ l :: rest) (length pre) l = block l rest.
Proof.
  unfold rewritten, block, pinned, has_path.
  destruct (endswith _ _); [|done].
  destruct (replacements !! _) as [v|]; [|done].
  replace (pre ++ l :: rest) with ((pre ++ [l]) ++ rest) by by rewrite <- app_assoc.
  replace (length pre + 1)%nat with (length (pre ++ [l]))
    by (rewrite length_app; simpl; lia).
  rewrite lookup_app_r by lia. rewrite Nat.sub_diag.
  destruct rest as [|n rest].
  - rewrite app_nil_r. case_bool_decide; [lia | done].
  - simpl. case_bool_decide as Hlt; [done|].
    exfalso. apply Hlt. rewrite !length_app. simpl. lia.
Qed.

Lemma loop_from pre suf st :
  let st' :=
    foldl (loop_body (pre ++ suf)) st (zip (seq (length pre) (length suf)) suf) in
  new_lines st' = new_lines st ++ out_from (skip_next st) suf
  ∧ modified st' = modified st || mod_from (skip_next st) suf.
Proof.
  revert pre st. induction suf as [|l rest IH]; intros pre st; simpl.
  - by rewrite app_nil_r, orb_false_r.
  - specialize (IH (pre ++ [l])). rewrite <- app_assoc in IH. simpl in IH.
    replace (length (pre ++ [l])) with (S (length pre)) in IH
      by (rewrite length_app; simpl; lia).
    destruct (skip_next st) eqn:Hs.
    + apply (IH (ScanState (new_lines st) (modified st) false)).
    + rewrite rewritten_block. destruct (block l rest) as [r|].
      * destruct (IH (ScanState (new_lines st ++ [r]) true true)) as [-> ->].
        simpl. rewrite <- app_assoc. simpl. by rewrite orb_true_r.
      * destruct (IH (ScanState (new_lines st ++ [l]) (modified st) false))
          as [-> ->].
        simpl. by rewrite <- app_assoc.
Qed.

(** The loop of the source computes [out_from] and [mod_from]. *)
Lemma scanner_out lines : new_lines (scanner lines) = out_from false lines.
Proof. apply (loop_from [] lines (ScanState [] false false)). Qed.

Lemma scanner_mod lines : modified (scanner lines) = mod_from false lines.
Proof. apply (loop_from [] lines (ScanState [] false false)). Qed.


(** ** Name lines and their replacement *)

Lemma name_line_iff line :
  name_line line ↔ ∃ k v, replacements !! k = Some v ∧ strip line = k ++ lit ":".
Proof.
  unfold name_line, set_Exists. split.
  - intros (k & [v Hk]%elem_of_dom & Hs). by exists k, v.
  - intros (k & v & Hk & Hs). exists k. split; [|done]. apply elem_of_dom. by exists v.
Qed.

Lemma entry_facts k v :
  replacements !! k = Some v →
  (∃ c k', k = c :: k' ∧ isspace c = false)
  ∧ tight (k ++ lit ": " ++ v)
  ∧ endswith (k ++ lit ": " ++ v) (lit ":") = false
  ∧ contains (k ++ lit ":") (lit "path:") = false
  ∧ contains (k ++ lit ": " ++ v ++ [LF]) (lit "path:") = false
  ∧ (∃ c v', v = c :: v' ∧ isspace c = false)
  ∧ CR ∉ k ++ lit ": " ++ v ++ [LF].
Proof.
  intros H%replacements_entry. unfold entry_check in H.
  repeat (apply andb_prop in H as [H ?]).
  destruct k as [|c k']; [done|]. destruct v as [|d v']; [done|].
  repeat match goal with
         | H : negb _ = true |- _ => apply negb_true_iff in H
         | H : bool_decide _ = true |- _ => apply bool_decide_eq_true in H
         end.
  split; [by exists c, k' |]. do 4 (split; [done|]). split; [by exists d, v' | done].
Qed.

Lemma leading_ws_app ws c t :
  blank ws → isspace c = false → leading_ws (ws ++ c :: t) = ws.
Proof.
  intros Hb Hc. unfold leading_ws. rewrite lstrip_blank_app by done.
  simpl. rewrite Hc, length_app. simpl.
  replace (_ - _)%nat with (length ws) by lia. by rewrite take_app_length.
Qed.

(** A name line is its leading whitespace, the key, the colon and trailing
    whitespace. *)
Lemma name_line_split line k v :
  replacements !! k = Some v → strip line = k ++ lit ":" →
  ∃ ws2, blank (leading_ws line) ∧ blank ws2
         ∧ line = leading_ws line ++ (k ++ lit ":") ++ ws2.
Proof.
  intros Hk Hs. destruct (strip_split line) as (ws1 & ws2 & Hb1 & Hb2 & He).
  destruct (entry_facts k v Hk) as ((c & k' & -> & Hc) & _).
  rewrite Hs in He. exists ws2.
  assert (leading_ws line = ws1) as ->; [|done].
  rewrite He. simpl. by apply leading_ws_app.
Qed.

(** Source lines 77-78 keep the indentation: on a name line [line.find]
    returns the length of the leading whitespace. *)
Lemma pinned_of_name line k v :
  replacements !! k = Some v → strip line = k ++ lit ":" →
  pinned line = Some (leading_ws line ++ k ++ lit ": " ++ v ++ [LF]).
Proof.
  intros Hk Hs. destruct (name_line_split line k v Hk Hs) as (ws2 & Hb1 & Hb2 & He).
  destruct (entry_facts k v Hk) as ((c & k' & -> & Hc) & _).
  unfold pinned. cbv zeta. rewrite Hs. change (lit ":") with [COLON].
  rewrite endswith_snoc, N.eqb_refl, slice_to_snoc, Hk.
  do 2 f_equal. rewrite He at 1 2. unfold find.
  rewrite <- (app_assoc (c :: k')), find_from_blank by done.
  rewrite Z.add_0_l. apply slice_to_app.
Qed.

Lemma pinned_inv line r :
  pinned line = Some r →
  ∃ k v, replacements !! k = Some v ∧ strip line = k ++ lit ":"
         ∧ r = leading_ws line ++ k ++ lit ": " ++ v ++ [LF].
Proof.
  intros H. assert (∃ k v, replacements !! k = Some v ∧ strip line = k ++ lit ":")
    as (k & v & Hk & Hs).
  { unfold pinned in H. cbv zeta in H. destruct (endswith _ _) eqn:He; [|done].
    destruct (replacements !! _) as [v|] eqn:Hk; [|done].
    eexists _, v. split; [exact Hk|]. by apply endswith_char. }
  exists k, v. rewrite (pinned_of_name line k v Hk Hs) in H. by injection H as <-.
Qed.

Lemma pinned_name_line line : is_Some (pinned line) ↔ name_line line.
Proof.
  split.
  - intros [r (k & v & Hk & Hs & _)%pinned_inv]. apply name_line_iff. by exists k, v.
  - intros (k & v & Hk & Hs)%name_line_iff.
    rewrite (pinned_of_name line k v Hk Hs). by eexists.
Qed.

(** A name line never carries the path indicator itself. *)
Lemma name_line_no_path line : name_line line → has_path line = false.
Proof.
  intros (k & v & Hk & Hs)%name_line_iff.
  destruct (entry_facts k v Hk) as (_ & _ & _ & Hp & _).
  unfold has_path. change (lit "path:") with (112 :: [97; 116; 104; 58])%N in *.
  by rewrite (contains_strip line _ _ 58%N), Hs.
Qed.

Lemma pinned_no_path line r : pinned line = Some r → has_path line = false.
Proof. intros H. apply name_line_no_path, pinned_name_line. by eexists. Qed.

Lemma blank_LF : blank [LF].
Proof. by repeat constructor. Qed.

(** A replacement line is not a name line and has no path indicator, so
    the scanner never rewrites what it wrote. *)
Lemma pinned_fixed line r : pinned line = Some r → pinned r = None ∧ has_path r = false.
Proof.
  intros (k & v & Hk & Hs & ->)%pinned_inv.
  destruct (name_line_split line k v Hk Hs) as (_ & Hb & _).
  destruct (entry_facts k v Hk) as ((c & k' & -> & Hc) & Ht & He & _ & Hp & _).
  split.
  - unfold pinned.
    replace (leading_ws line ++ (c :: k') ++ lit ": " ++ v ++ [LF])
      with (leading_ws line ++ ((c :: k') ++ lit ": " ++ v) ++ [LF])
      by by rewrite <- !app_assoc.
    rewrite strip_tight by (done || apply blank_LF). by rewrite He.
  - unfold has_path. change (lit "path:") with (112 :: [97; 116; 104; 58])%N in *.
    by rewrite contains_blank_l.
Qed.

(** ** Reasoning along the scan *)

Lemma out_keep l rest :
  block l rest = None → out_from false (l :: rest) = l :: out_from false rest.
Proof. simpl. by intros ->. Qed.

Lemma out_block l n rest r :
  pinned l = Some r → has_path n = true →
  out_from false (l :: n :: rest) = r :: out_from false rest.
Proof. intros Hp Hn. simpl. unfold block. by rewrite Hp, Hn. Qed.

Lemma mod_keep l rest :
  block l rest = None → mod_from false (l :: rest) = mod_from false rest.
Proof. simpl. by intros ->. Qed.

Lemma mod_block l n rest r :
  pinned l = Some r → has_path n = true → mod_from false (l :: n :: rest) = true.
Proof. intros Hp Hn. simpl. unfold block. by rewrite Hp, Hn. Qed.

Lemma block_Some l rest r :
  block l rest = Some r ↔
  pinned l = Some r ∧ ∃ n rest', rest = n :: rest' ∧ has_path n = true.
Proof.
  split.
  - unfold block. destruct (pinned l) as [r'|]; [|done].
    destruct rest as [|n rest']; [done|].
    destruct (has_path n) eqn:Hn; [|done].
    intros [= ->]. split; [done|]. by exists n, rest'.
  - intros [Hp (n & rest' & -> & Hn)]. unfold block. by rewrite Hp, Hn.
Qed.

(** Induction following the scanner: a line is either kept, or it opens a
    block together with the line after it. *)
Lemma scan_ind (P : list str → Prop) :
  P [] →
  (∀ l rest, block l rest = None → P rest → P (l :: rest)) →
  (∀ l n rest r, pinned l = Some r → has_path n = true → P rest → P (l :: n :: rest)) →
  ∀ ls, P ls.
Proof.
  intros Hnil Hkeep Hblock ls.
  induction ls as [ls IH] using (induction_ltof1 _ (@length str)).
  unfold ltof in IH. destruct ls as [|l rest]; [done|].
  destruct (block l rest) as [r|] eqn:Hb.
  - apply block_Some in Hb as [Hp (n & rest' & -> & Hn)].
    apply (Hblock _ _ _ r); [done | done |]. apply IH. simpl. lia.
  - apply Hkeep; [done|]. apply IH. simpl. lia.
Qed.

Lemma block_no_path l x rest : has_path x = false → block l (x :: rest) = None.
Proof. intros Hx. unfold block. rewrite Hx. by destruct (pinned l). Qed.

Lemma block_app l rest x tail :
  has_path x = false → block l rest = None → block l (rest ++ x :: tail) = None.
Proof.
  intros Hx Hb. destruct rest as [|n rest]; [by apply block_no_path | exact Hb].
Qed.

Lemma block_not_pinned l rest : pinned l = None → block l rest = None.
Proof. unfold block. by intros ->. Qed.

(** The scan of a prefix does not depend on what follows it when the first
    line after the prefix has no path indicator: nothing is pending. *)
Lemma scan_app pre x rest :
  has_path x = false →
  out_from false (pre ++ x :: rest) = out_from false pre ++ out_from false (x :: rest)
  ∧ mod_from false (pre ++ x :: rest)
    = mod_from false pre || mod_from false (x :: rest).
Proof.
  intros Hx. induction pre as [|l pre Hb [IHo IHm]|l n pre r Hp Hn [IHo IHm]]
    using scan_ind.
  - done.
  - rewrite <- app_comm_cons.
    rewrite (out_keep l (pre ++ _)), (mod_keep l (pre ++ _)) by by apply block_app.
    rewrite (out_keep l pre), (mod_keep l pre) by done.
    by rewrite IHo, IHm.
  - rewrite <- !app_comm_cons.
    rewrite !(out_block l n _ r), !(mod_block l n _ r) by done.
    by rewrite IHo.
Qed.

Lemma out_head_no_path n rest :
  has_path n = false →
  ∃ h t, out_from false (n :: rest) = h :: t ∧ has_path h = false.
Proof.
  intros Hn. simpl. destruct (block n rest) as [r|] eqn:Hb.
  - apply block_Some in Hb as [[_ Hr]%pinned_fixed _]. exists r. eexists. by split.
  - exists n. eexists. by split.
Qed.

(** No block is left in the output of a scan. *)
Lemma mod_out lines : mod_from false (out_from false lines) = false.
Proof.
  induction lines as [|l rest Hb IH|l n rest r Hp Hn IH] using scan_ind.
  - done.
  - rewrite out_keep by done. rewrite mod_keep; [done|].
    destruct (pinned l) as [r|] eqn:Hp; [|by apply block_not_pinned].
    destruct rest as [|n rest]; [by unfold block; rewrite Hp|].
    assert (has_path n = false) as Hn.
    { unfold block in Hb. rewrite Hp in Hb. by destruct (has_path n). }
    destruct (out_head_no_path n rest Hn) as (h & t & -> & Hh).
    by apply block_no_path.
  - rewrite (out_block l n rest r) by done.
    destruct (pinned_fixed l r Hp) as [Hr _].
    by rewrite mod_keep by by apply block_not_pinned.
Qed.

(** A scan that reports no modification returns its input. *)
Lemma out_unmodified lines : mod_from false lines = false → out_from false lines = lines.
Proof.
  induction lines as [|l rest Hb IH|l n rest r Hp Hn IH] using scan_ind.
  - done.
  - rewrite mod_keep, out_keep by done. by intros ->%IH.
  - by rewrite (mod_block l n rest r).
Qed.


(** ** Blocks by position and blocks met by the scan *)

Lemma block_opens l rest : block l rest = None ↔ opens l rest = false.
Proof.
  unfold block, opens. destruct rest as [|n rest].
  - by destruct (pinned l).
  - destruct (pinned l) as [r|] eqn:Hp.
    + rewrite bool_decide_eq_true_2
        by (apply pinned_name_line; by eexists).
      simpl. by destruct (has_path n).
    + rewrite bool_decide_eq_false_2; [done|].
      intros [r Hr]%pinned_name_line. congruence.
Qed.

Lemma opens_after_path n rest : has_path n = true → opens n rest = false.
Proof.
  intros Hn. unfold opens. destruct rest as [|m rest]; [done|].
  rewrite bool_decide_eq_false_2; [done|].
  intros Hnl%name_line_no_path. congruence.
Qed.

Lemma opens_pinned l n rest r :
  pinned l = Some r → has_path n = true → opens l (n :: rest) = true.
Proof.
  intros Hp Hn. destruct (opens l (n :: rest)) eqn:Ho; [done|].
  apply block_opens in Ho. unfold block in Ho. by rewrite Hp, Hn in Ho.
Qed.

Lemma opens_block_middle pre l rest :
  opens_block (pre ++ l :: rest) (length pre) = opens l rest.
Proof.
  unfold opens_block, opens. rewrite list_lookup_middle by done.
  replace (pre ++ l :: rest) with ((pre ++ [l]) ++ rest) by by rewrite <- app_assoc.
  replace (S (length pre)) with (length (pre ++ [l]) + 0)%nat
    by (rewrite length_app; simpl; lia).
  rewrite lookup_app_r by lia.
  replace (_ + 0 - _)%nat with 0%nat by lia. by destruct rest.
Qed.

Lemma opens_block_head l rest : opens_block (l :: rest) 0 = opens l rest.
Proof. apply (opens_block_middle [] l rest). Qed.

Lemma opens_block_tail l rest i : opens_block (l :: rest) (S i) = opens_block rest i.
Proof. done. Qed.

Lemma count_blocks_from pre suf :
  length (filter (λ i, opens_block (pre ++ suf) i = true)
            (seq (length pre) (length suf)))
  = count_from suf.
Proof.
  revert pre. induction suf as [|l rest IH]; intros pre; [done|].
  cbn [length seq count_from]. rewrite filter_cons, opens_block_middle.
  specialize (IH (pre ++ [l])). rewrite <- app_assoc in IH. simpl in IH.
  replace (length (pre ++ [l])) with (S (length pre)) in IH
    by (rewrite length_app; simpl; lia).
  destruct (decide (opens l rest = true)) as [->|Hf]; simpl.
  - by rewrite IH.
  - apply not_true_is_false in Hf. by rewrite Hf, IH.
Qed.

Lemma count_blocks_rec lines : count_blocks lines = count_from lines.
Proof. apply (count_blocks_from [] lines). Qed.

Lemma copied_from_cons b l rest :
  copied_from b (l :: rest)
  = (if opens l rest || b then [] else [l]) ++ copied_from (opens l rest) rest.
Proof. done. Qed.

Lemma copied_from_zip pre suf b :
  b = match length pre with
      | S j => opens_block (pre ++ suf) j
      | O => false
      end →
  (filter (λ p, in_block (pre ++ suf) p.1 = false)
     (zip (seq (length pre) (length suf)) suf)).*2
  = copied_from b suf.
Proof.
  revert pre b. induction suf as [|l rest IH]; intros pre b Hb; [done|].
  cbn [length seq zip zip_with]. rewrite filter_cons, copied_from_cons.
  assert (in_block (pre ++ l :: rest) (length pre) = opens l rest || b) as Hin.
  { unfold in_block. by rewrite opens_block_middle, Hb. }
  specialize (IH (pre ++ [l]) (opens l rest)).
  rewrite <- app_assoc in IH. simpl in IH.
  replace (length (pre ++ [l])) with (S (length pre)) in IH
    by (rewrite length_app; simpl; lia).
  specialize (IH (eq_sym (opens_block_middle pre l rest))).
  cbn [fst]. rewrite Hin.
  destruct (opens l rest || b); simpl.
  - exact IH.
  - f_equal. exact IH.
Qed.

Lemma copied_rec lines : copied lines = copied_from false lines.
Proof. by apply (copied_from_zip [] lines false). Qed.

(** Each block shortens the output by one line. *)
Lemma out_length_count lines :
  (length (out_from false lines) + count_from lines = length lines)%nat.
Proof.
  induction lines as [|l rest Hb IH|l n rest r Hp Hn IH] using scan_ind.
  - done.
  - rewrite out_keep by done. apply block_opens in Hb.
    cbn [count_from length]. rewrite Hb. lia.
  - rewrite (out_block l n rest r) by done.
    cbn [count_from length].
    rewrite (opens_pinned l n rest r), (opens_after_path n rest) by done. lia.
Qed.

Lemma mod_count lines : mod_from false lines = true ↔ (0 < count_from lines)%nat.
Proof.
  induction lines as [|l rest Hb IH|l n rest r Hp Hn IH] using scan_ind.
  - simpl. split; [done | lia].
  - rewrite mod_keep by done. apply block_opens in Hb.
    cbn [count_from]. by rewrite Hb.
  - rewrite (mod_block l n rest r) by done. cbn [count_from].
    rewrite (opens_pinned l n rest r) by done. split; [lia | done].
Qed.


(** The lines outside the blocks are kept, in their order. *)
Lemma copied_sublist lines : copied_from false lines `sublist_of` out_from false lines.
Proof.
  induction lines as [|l rest Hb IH|l n rest r Hp Hn IH] using scan_ind.
  - done.
  - rewrite out_keep by done. apply block_opens in Hb.
    rewrite copied_from_cons, Hb. by apply sublist_skip.
  - rewrite (out_block l n rest r) by done.
    rewrite !copied_from_cons.
    rewrite (opens_pinned l n rest r), (opens_after_path n rest) by done.
    by apply sublist_cons.
Qed.

Lemma enumerate_lookup (lines : list (list N)) i l :
  lines !! i = Some l → (i, l) ∈ enumerate lines.
Proof.
  intros Hl. apply (list_elem_of_lookup_2 _ i). unfold enumerate.
  rewrite lookup_zip_with, lookup_seq_lt by by eapply lookup_lt_Some.
  simpl. by rewrite Hl.
Qed.

(** ** What [readlines] returns *)

Lemma splitlines_join s : join (splitlines s) = s.
Proof.
  unfold join. induction s as [|c s IH]; [done|]. simpl.
  destruct (c =? LF)%N; simpl; [by rewrite IH|].
  destruct (splitlines s) as [|l ls]; simpl in *; by rewrite <- IH.
Qed.

Lemma splitlines_terminated s : terminated (splitlines s).
Proof.
  induction s as [|c s IH]; [done|]. simpl.
  destruct (N.eqb_spec c LF) as [->|Hc].
  - simpl. by destruct (splitlines s).
  - destruct (splitlines s) as [|l [|l' ls]]; [done | done |].
    destruct IH as [Hl IH]. split; [|done].
    destruct l as [|d l]; [done | exact Hl].
Qed.

Lemma terminated_tail l rest : terminated (l :: rest) → terminated rest.
Proof. simpl. destruct rest; [done | by intros [_ ?]]. Qed.

Lemma universal_newlines_id s : CR ∉ s → universal_newlines s = s.
Proof.
  induction s as [|c s IH]; [done|]. intros Hn. simpl.
  destruct (N.eqb_spec c CR) as [->|_].
  - exfalso. apply Hn. by left.
  - rewrite IH; [done|]. intros Hs. apply Hn. by right.
Qed.

Lemma universal_newlines_no_CR s : CR ∉ universal_newlines s.
Proof.
  induction s as [s IH] using (induction_ltof1 _ (@length N)). unfold ltof in IH.
  destruct s as [|c s]; simpl.
  - by intros ?%elem_of_nil.
  - destruct (N.eqb_spec c CR) as [->|Hc].
    + intros [Heq|Hin]%elem_of_cons; [done|].
      destruct s as [|d s]; [by apply elem_of_nil in Hin|].
      destruct (d =? LF)%N; revert Hin; apply IH; simpl; lia.
    + intros [Heq|Hin]%elem_of_cons; [done|]. revert Hin. apply IH. simpl. lia.
Qed.

(** ** The text written back *)

Lemma join_cons l rest : join (l :: rest) = l ++ join rest.
Proof. done. Qed.

Lemma out_no_CR lines : CR ∉ join lines → CR ∉ join (out_from false lines).
Proof.
  induction lines as [|l rest Hb IH|l n rest r Hp Hn IH] using scan_ind.
  - done.
  - rewrite out_keep by done. rewrite !join_cons, !not_elem_of_app.
    intros [? ?]. auto.
  - rewrite (out_block l n rest r) by done.
    rewrite !join_cons, !not_elem_of_app. intros (Hl & _ & Hrest).
    split; [|auto].
    apply pinned_inv in Hp as (k & v & Hk & Hs & ->).
    destruct (name_line_split l k v Hk Hs) as (ws2 & _ & _ & He).
    destruct (entry_facts k v Hk) as (_ & _ & _ & _ & _ & _ & Hcr).
    rewrite He in Hl. rewrite not_elem_of_app in Hl. destruct Hl as [Hl _].
    by rewrite not_elem_of_app.
Qed.


(** ** Properties of the line scanner *)

Lemma count_zero_unmodified lines :
  count_blocks lines = 0%nat →
  modified (scanner lines) = false ∧ new_lines (scanner lines) = lines.
Proof.
  rewrite count_blocks_rec, scanner_mod, scanner_out. intros Hc.
  assert (mod_from false lines = false) as Hm.
  { apply not_true_is_false. intros Hm%mod_count. lia. }
  split; [done | by apply out_unmodified].
Qed.

(** C1 (amended): wherever the adjacent lines "  web3_universal_core:" and
    "    path: ../core" occur, the scanner puts the single line
    "  web3_universal_core: ^0.1.1" (the version the table maps the name to)
    in their place, with the two-space leading whitespace of the name line;
    the lines before and after the pair are scanned on their own. The output
    has one line fewer per dependency block of the input, hence exactly one
    line fewer than the input when the pair is its only block. *)
Theorem C1_core_block_rewritten (pre post : list (list N)) (path : list N) :
  path = ln "    path: ../core" ∨ path = lit "    path: ../core" →
  let lines := pre ++ ln "  web3_universal_core:" :: path :: post in
  let out := new_lines (scanner lines) in
  replacements !! lit "web3_universal_core" = Some (lit "^0.1.1")
  ∧ out = new_lines (scanner pre) ++ ln "  web3_universal_core: ^0.1.1"
                                  :: new_lines (scanner post)
  ∧ leading_ws (ln "  web3_universal_core: ^0.1.1")
    = leading_ws (ln "  web3_universal_core:")
  ∧ leading_ws (ln "  web3_universal_core:") = lit "  "
  ∧ (length out + count_blocks lines = length lines)%nat
  ∧ (count_blocks pre = 0 → count_blocks post = 0 →
     length out + 1 = length lines)%nat.
Proof.
  intros Hpath lines out.
  assert (has_path path = true) as Hp by by destruct Hpath as [-> | ->].
  assert (pinned (ln "  web3_universal_core:") = Some (ln "  web3_universal_core: ^0.1.1"))
    as Hn by by vm_compute.
  assert (out = new_lines (scanner pre) ++ ln "  web3_universal_core: ^0.1.1"
                                        :: new_lines (scanner post)) as Hout.
  { unfold out, lines. rewrite !scanner_out.
    destruct (scan_app pre (ln "  web3_universal_core:") (path :: post)) as [-> _].
    { by eapply pinned_no_path. }
    by rewrite (out_block _ path post _ Hn Hp). }
  split; [by vm_compute|]. split; [done|].
  split; [by vm_compute|]. split; [by vm_compute|]. split.
  - unfold out. rewrite scanner_out, count_blocks_rec. apply out_length_count.
  - intros [_ Hpre]%count_zero_unmodified [_ Hpost]%count_zero_unmodified.
    rewrite Hout, Hpre, Hpost. unfold lines. rewrite !length_app. simpl. lia.
Qed.

Lemma C1_core_block_rewritten_witness :
  (core_path = ln "    path: ../core" ∨ core_path = lit "    path: ../core")
  ∧ new_lines (scanner ([ln "dependencies:"] ++ core_name :: core_path :: [ln "  http: ^1.0.0"]))
    = new_lines (scanner [ln "dependencies:"]) ++ core_pinned
        :: new_lines (scanner [ln "  http: ^1.0.0"]).
Proof.
  split; [by left|].
  exact (proj1 (proj2 (C1_core_block_rewritten [ln "dependencies:"]
                         [ln "  http: ^1.0.0"] core_path (or_introl eq_refl)))).
Defined.

(** C1 as stated fails: with two path dependencies in the input the output
    is two lines shorter, not one. *)
Lemma C1_counterexample :
  two_blocks = [] ++ ln "  web3_universal_core:" :: ln "    path: ../core"
                  :: [ln "  web3_universal_crypto:"; ln "    path: ../crypto"]
  ∧ new_lines (scanner two_blocks)
    = [ln "  web3_universal_core: ^0.1.1"; ln "  web3_universal_crypto: ^0.2.0"]
  ∧ length (new_lines (scanner two_blocks)) ≠ (length two_blocks - 1)%nat.
Proof. split; [done|]. split; [by vm_compute|]. by vm_compute. Qed.

(** C3: scanning the output of a scan changes nothing: the second run
    reports no modification and returns the same lines. *)
Theorem C3_scanner_idempotent (lines : list (list N)) :
  let once := new_lines (scanner lines) in
  modified (scanner once) = false ∧ new_lines (scanner once) = once.
Proof.
  intros once. unfold once. rewrite !scanner_mod, !scanner_out.
  split; [apply mod_out | apply out_unmodified, mod_out].
Qed.

(** C4: the lines that belong to no dependency block, taken in input order,
    form a subsequence of the output, so each of them is in the output as it
    was and their relative order is kept. *)
Theorem C4_outside_lines_copied (lines : list (list N)) :
  copied lines `sublist_of` new_lines (scanner lines)
  ∧ ∀ i l, lines !! i = Some l → in_block lines i = false →
           l ∈ copied lines ∧ l ∈ new_lines (scanner lines).
Proof.
  assert (copied lines `sublist_of` new_lines (scanner lines)) as Hsub.
  { rewrite copied_rec, scanner_out. apply copied_sublist. }
  split; [done|]. intros i l Hl Hin.
  assert (l ∈ copied lines) as Hc.
  { unfold copied. apply (list_elem_of_fmap_2' snd _ (i, l)); [|done].
    apply list_elem_of_filter. split; [done | by apply enumerate_lookup]. }
  split; [done | by eapply elem_of_sublist].
Qed.

Lemma C4_outside_lines_copied_witness :
  plain_manifest !! 3%nat = Some (ln "  http: ^1.0.0")
  ∧ in_block plain_manifest 3 = false
  ∧ ln "  http: ^1.0.0" ∈ new_lines (scanner plain_manifest).
Proof.
  assert (plain_manifest !! 3%nat = Some (ln "  http: ^1.0.0")) as Hl
    by (vm_compute; reflexivity).
  assert (in_block plain_manifest 3 = false) as Hb by (vm_compute; reflexivity).
  split; [exact Hl|]. split; [exact Hb|].
  exact (proj2 (proj2 (C4_outside_lines_copied plain_manifest) 3%nat _ Hl Hb)).
Defined.

(** C5 (amended): a name line whose next line lacks the path indicator is
    emitted unchanged and the next line is not consumed with it: the scan
    goes on from that next line, which is emitted unchanged unless it is
    itself the name line of a dependency block. *)
Theorem C5_name_line_without_path (pre post : list (list N)) (l f : list N) :
  name_line l → has_path f = false →
  let lines := pre ++ l :: f :: post in
  new_lines (scanner lines)
  = new_lines (scanner pre) ++ l :: new_lines (scanner (f :: post))
  ∧ modified (scanner lines)
    = modified (scanner pre) || modified (scanner (f :: post))
  ∧ (opens_block lines (S (length pre)) = false →
     new_lines (scanner lines)
     = new_lines (scanner pre) ++ l :: f :: new_lines (scanner post)).
Proof.
  intros Hl Hf lines. unfold lines. rewrite !scanner_out, !scanner_mod.
  destruct (scan_app pre l (f :: post)) as [-> ->];
    [by apply name_line_no_path|].
  pose proof (block_no_path l f post Hf) as Hb.
  rewrite (out_keep l), (mod_keep l) by done.
  split; [done|]. split; [done|]. intros Ho. do 2 f_equal.
  apply out_keep, block_opens.
  replace (pre ++ l :: f :: post) with ((pre ++ [l]) ++ f :: post) in Ho
    by by rewrite <- app_assoc.
  replace (S (length pre)) with (length (pre ++ [l])) in Ho
    by (rewrite length_app; simpl; lia).
  by rewrite opens_block_middle in Ho.
Qed.

Lemma C5_name_line_without_path_witness :
  name_line core_name ∧ has_path (ln "  http: ^1.0.0") = false
  ∧ new_lines (scanner ([ln "dependencies:"] ++ core_name :: ln "  http: ^1.0.0" :: []))
    = new_lines (scanner [ln "dependencies:"]) ++ core_name
        :: new_lines (scanner [ln "  http: ^1.0.0"]).
Proof.
  assert (name_line core_name) as Hn
    by (apply (bool_decide_unpack _); vm_compute; exact I).
  assert (has_path (ln "  http: ^1.0.0") = false) as Hf by (vm_compute; reflexivity).
  split; [exact Hn|]. split; [exact Hf|].
  exact (proj1 (C5_name_line_without_path [ln "dependencies:"] [] core_name
                  (ln "  http: ^1.0.0") Hn Hf)).
Defined.

(** C5 as stated fails: the line after an unmatched name line is rewritten
    when it is the name line of a block of its own. *)
Lemma C5_counterexample :
  name_line (ln "  web3_universal_core:")
  ∧ stacked_names !! 0%nat = Some (ln "  web3_universal_core:")
  ∧ stacked_names !! 1%nat = Some (ln "  web3_universal_crypto:")
  ∧ has_path (ln "  web3_universal_crypto:") = false
  ∧ new_lines (scanner stacked_names)
    = [ln "  web3_universal_core:"; ln "  web3_universal_crypto: ^0.2.0"]
  ∧ ln "  web3_universal_crypto:" ∉ new_lines (scanner stacked_names).
Proof.
  split; [apply (bool_decide_unpack _); by vm_compute|].
  do 3 (split; [by vm_compute|]).
  split; [by vm_compute|].
  apply (bool_decide_unpack _). by vm_compute.
Qed.

(** C6: a name line that is the last line of the input is emitted unchanged
    and leaves the modified flag as the lines before it set it. *)
Theorem C6_name_line_at_end (pre : list (list N)) (l : list N) :
  name_line l →
  new_lines (scanner (pre ++ [l])) = new_lines (scanner pre) ++ [l]
  ∧ modified (scanner (pre ++ [l])) = modified (scanner pre)
  ∧ rewritten (pre ++ [l]) (length pre) l = None.
Proof.
  intros Hl. rewrite !scanner_out, !scanner_mod.
  destruct (scan_app pre l []) as [-> ->]; [by apply name_line_no_path|].
  assert (block l [] = None) as Hb by (unfold block; by destruct (pinned l)).
  rewrite out_keep, mod_keep, rewritten_block by done. simpl.
  by rewrite orb_false_r.
Qed.

Lemma C6_name_line_at_end_witness :
  name_line core_name
  ∧ new_lines (scanner ([ln "dependencies:"] ++ [core_name]))
    = new_lines (scanner [ln "dependencies:"]) ++ [core_name].
Proof.
  assert (name_line core_name) as Hn
    by (apply (bool_decide_unpack _); vm_compute; exact I).
  split; [exact Hn|].
  exact (proj1 (C6_name_line_at_end [ln "dependencies:"] core_name Hn)).
Defined.

(** ** The file committer and the driver *)

Ltac io_step := cbn [fst snd disk trace] in *.

Ltac run_body :=
  unfold fix_file_body, read_lines, write_lines, print, store, log, raise,
    mbind, IO_bind, mret, IO_ret;
  io_step.

Ltac run_io := unfold fix_file, try_except; run_body.

(** A call of [print] leaves the disk alone and adds at most its line. *)
Lemma print_world E m w :
  disk (print E m w).2 = disk w
  ∧ (trace (print E m w).2 = trace w
     ∨ trace (print E m w).2 = trace w ++ [Print m]).
Proof.
  unfold print, raise, log. destruct (print_fault E m); cbn [snd disk trace]; auto.
Qed.

Lemma print_disk E m w : disk (print E m w).2 = disk w.
Proof. apply print_world. Qed.

Lemma print_ok E m w :
  print_fault E m = None →
  print E m w = (Returned tt, World (disk w) (trace w ++ [Print m])).
Proof. intros H. unfold print, log. by rewrite H. Qed.

Lemma put_lookup E p data d q :
  put E p data d !! q
  = if decide (q ∈ names_of E p) then Some data else d !! q.
Proof.
  unfold put, names_of. induction (p :: os_links E p) as [|x xs IH]; simpl.
  - destruct (decide (q ∈ [])) as [[]%elem_of_nil|]; done.
  - destruct (decide (x = q)) as [->|Hne].
    + rewrite lookup_insert_eq. rewrite decide_True; [done | by left].
    + rewrite lookup_insert_ne, IH by done.
      destruct (decide (q ∈ xs)) as [Hin|Hin].
      * rewrite decide_True; [done | by right].
      * rewrite decide_False; [done|]. intros [?|?]%elem_of_cons; by subst.
Qed.

Lemma put_lookup_self E p data d : put E p data d !! p = Some data.
Proof. rewrite put_lookup, decide_True; [done | by left]. Qed.

Lemma put_lookup_other E p data d q :
  q ∉ names_of E p → put E p data d !! q = d !! q.
Proof. intros H. by rewrite put_lookup, decide_False. Qed.

Lemma put_put E p x y d : put E p x (put E p y d) = put E p x d.
Proof.
  apply map_eq. intros q. rewrite !put_lookup. by destruct (decide _).
Qed.

Lemma read_lines_world E p w :
  (read_lines E p w).2 = World (disk w) (trace w ++ [Open p ModeR]).
Proof.
  run_body. destruct (open_fault E p ModeR); io_step; [done|].
  destruct (disk w !! p); [|done]. by destruct (read_fault E p).
Qed.

Lemma read_lines_ok E p w text :
  read_ok E p w text →
  read_lines E p w
  = (Returned (readlines text), World (disk w) (trace w ++ [Open p ModeR])).
Proof. intros (Ho & Hd & Hr). run_body. rewrite Ho. io_step. by rewrite Hd, Hr. Qed.

(** The [try] block, case by case. *)
Lemma body_read_raises E p w e :
  (read_lines E p w).1 = Raised e →
  fix_file_body E p w = (Raised e, World (disk w) (trace w ++ [Open p ModeR])).
Proof.
  intros Hr. pose proof (read_lines_world E p w) as Hw.
  unfold fix_file_body, mbind, IO_bind at 1.
  destruct (read_lines E p w) as [[ls|e'] w1]; cbn [fst snd] in *; [done|].
  by injection Hr as ->; subst.
Qed.

Lemma body_unmodified E p w text :
  disk w !! p = Some text → modified (scanner (readlines text)) = false →
  (fix_file_body E p w).2 = World (disk w) (trace w ++ [Open p ModeR]).
Proof.
  intros Hd Hm. run_body.
  destruct (open_fault E p ModeR); io_step; [done|]. rewrite Hd.
  destruct (read_fault E p); io_step; [done|]. by rewrite Hm.
Qed.

Lemma body_open_w_fails E p w text e :
  read_ok E p w text → modified (scanner (readlines text)) = true →
  open_fault E p ModeW = Some e →
  fix_file_body E p w
  = (Raised e, World (disk w) (trace w ++ [Open p ModeR; Open p ModeW])).
Proof.
  intros Hr Hm Ho. unfold fix_file_body, mbind, IO_bind at 1.
  rewrite (read_lines_ok E p w text Hr), Hm. run_body. rewrite Ho.
  by rewrite <- app_assoc.
Qed.

Lemma body_write_fails E p w text n torn e :
  read_ok E p w text → modified (scanner (readlines text)) = true →
  open_fault E p ModeW = None → write_fault E p = Some (n, torn, e) →
  let part := take n (join (new_lines (scanner (readlines text)))) ++ (stray <$> torn) in
  fix_file_body E p w
  = (Raised e,
     World (put E p part (disk w))
       (trace w ++ [Open p ModeR; Open p ModeW; Wrote p part])).
Proof.
  intros Hr Hm Ho Hw part. unfold fix_file_body, mbind, IO_bind at 1.
  rewrite (read_lines_ok E p w text Hr), Hm. run_body. rewrite Ho. io_step.
  rewrite Hw. io_step. by rewrite put_put, <- !app_assoc.
Qed.

Lemma body_write_ok E p w text :
  read_ok E p w text → modified (scanner (readlines text)) = true →
  open_fault E p ModeW = None → write_fault E p = None →
  let new_text := join (new_lines (scanner (readlines text))) in
  fix_file_body E p w
  = print E (lit "Fixed " ++ p)
      (World (put E p new_text (disk w))
         (trace w ++ [Open p ModeR; Open p ModeW; Wrote p new_text])).
Proof.
  intros Hr Hm Ho Hw new_text. unfold fix_file_body, mbind, IO_bind at 1.
  rewrite (read_lines_ok E p w text Hr), Hm.
  unfold write_lines, store, log, raise, mbind, IO_bind, mret, IO_ret. io_step.
  rewrite Ho. io_step. rewrite Hw. io_step.
  rewrite put_put, <- !app_assoc. simpl.
  by destruct (print E _ _) as [[[]|?] ?].
Qed.

(** The handler only prints: the disk after [fix_file] is the disk the [try]
    block left, and the trace is extended by at most the error line. *)
Lemma fix_file_disk E p w : disk (fix_file E p w).2 = disk (fix_file_body E p w).2.
Proof.
  unfold fix_file, try_except.
  destruct (fix_file_body E p w) as [[[]|e] w1]; [done|].
  destruct (is_Exception e); [|done]. apply print_world.
Qed.

Lemma fix_file_trace E p w :
  ∃ tail, trace (fix_file E p w).2 = trace (fix_file_body E p w).2 ++ tail
          ∧ Forall (λ ev, is_write ev = false) tail.
Proof.
  unfold fix_file, try_except.
  destruct (fix_file_body E p w) as [[[]|e] w1].
  - exists []. by rewrite app_nil_r.
  - destruct (is_Exception e).
    + destruct (print_world E (error_line p e) w1) as [_ [Ht|Ht]].
      * exists []. split; [by rewrite app_nil_r | done].
      * eexists [_]. split; [exact Ht|]. by repeat constructor.
    + exists []. by rewrite app_nil_r.
Qed.

Lemma fix_file_caught E p w e w1 :
  is_Exception e = true → fix_file_body E p w = (Raised e, w1) →
  print_fault E (error_line p e) = None →
  fix_file E p w = (Returned tt, World (disk w1) (trace w1 ++ [Print (error_line p e)])).
Proof.
  intros He Hb Hp. unfold fix_file, try_except. rewrite Hb, He.
  by apply print_ok.
Qed.

Lemma body_raises_Exception E p w e w1 :
  io_failures E → console_ok E →
  fix_file_body E p w = (Raised e, w1) → is_Exception e = true.
Proof.
  intros (Hn & Ho & Hr & Hw) Hc. run_body.
  destruct (open_fault E p ModeR) as [e1|] eqn:Ho1.
  { intros [= <- <-]. by eapply Ho. }
  cbn [disk]. destruct (disk w !! p) as [text|]; [|by intros [= <- <-]].
  destruct (read_fault E p) as [e2|] eqn:Hr1.
  { intros [= <- <-]. by eapply Hr. }
  destruct (modified (scanner (readlines text))); [|done].
  destruct (open_fault E p ModeW) as [e3|] eqn:Ho2.
  { intros [= <- <-]. by eapply Ho. }
  destruct (write_fault E p) as [[[n torn] e4]|] eqn:Hw1.
  { intros [= <- <-]. by eapply Hw. }
  io_step. by rewrite Hc.
Qed.

Lemma fix_file_returns E p w :
  io_failures E → console_ok E → (fix_file E p w).1 = Returned tt.
Proof.
  intros HE Hc. destruct (fix_file_body E p w) as [[[]|e] w1] eqn:Hb.
  - unfold fix_file, try_except. by rewrite Hb.
  - rewrite (fix_file_caught E p w e w1); [done | | done | apply Hc].
    by eapply body_raises_Exception.
Qed.

Lemma for_each_returns {A} (body : A → IO unit) xs w :
  (∀ x w, (body x w).1 = Returned tt) →
  for_each xs body w = (Returned tt, foldl (λ w x, (body x w).2) w xs).
Proof.
  intros Hb. revert w. induction xs as [|x xs IH]; intros w; [done|].
  simpl. unfold mbind, IO_bind. specialize (Hb x w).
  destruct (body x w) as [[[]|e] w']; [apply IH | done].
Qed.

Lemma foldl_bind {A B C} (f : A → C → A) (g : B → list C) xs a :
  foldl f a (xs ≫= g) = foldl (λ a x, foldl f a (g x)) a xs.
Proof.
  revert a. induction xs as [|x xs IH]; intros a; [done|].
  by rewrite bind_cons, foldl_app, IH.
Qed.

Lemma foldl_ext_eq {A B} (f g : A → B → A) xs a :
  (∀ a x, f a x = g a x) → foldl f a xs = foldl g a xs.
Proof.
  intros H. revert a. induction xs as [|x xs IH]; intros a; [done|].
  simpl. by rewrite H, IH.
Qed.

(** The driver runs [fix_file] on every manifest it reaches, one after the
    other, whatever happened to the files before. *)
Lemma main_runs_all E w :
  io_failures E → console_ok E →
  main E w = (Returned tt, foldl (λ w p, (fix_file E p w).2) w (manifests E)).
Proof.
  intros HE Hc. unfold main, manifests.
  set (inner := λ item : list N * list (list N) * list (list N),
         let '(root, dirs, files) := item in
         if bool_decide (lit "pubspec.yaml" ∈ files)
         then fix_file E (os_path_join E root (lit "pubspec.yaml"))
         else mret tt).
  assert (∀ x w, (inner x w).1 = Returned tt) as Hinner.
  { intros [[root dirs] files] w0. unfold inner.
    case_bool_decide; [by apply fix_file_returns | done]. }
  rewrite for_each_returns.
  2:{ intros base w0. by rewrite for_each_returns. }
  f_equal. rewrite foldl_bind. apply foldl_ext_eq. intros w0 base.
  rewrite for_each_returns by done. cbn [snd].
  rewrite foldl_bind. apply foldl_ext_eq. intros w1 [[root dirs] files].
  unfold inner. by case_bool_decide.
Qed.

(** C7 (amended): provided the console takes the lines printed, every I/O
    failure of reading or writing one manifest is caught inside [fix_file]
    and reported: whether the file cannot be opened for reading, does not
    exist, cannot be read or decoded, cannot be opened for writing, or the
    write fails, [fix_file] returns normally and its last effect is the line
    "Error processing", the path and the detail of that failure, with no
    "Fixed" line; and the driver runs [fix_file] on every manifest it
    reaches, each from the world the previous one left. *)
Theorem C7_failures_caught_per_file (E : env) :
  io_failures E → console_ok E →
  (∀ p w, (fix_file E p w).1 = Returned tt)
  ∧ (∀ p w e,
       open_fault E p ModeR = Some e
       ∨ (open_fault E p ModeR = None ∧ disk w !! p = None ∧ e = not_found E p)
       ∨ (open_fault E p ModeR = None ∧ is_Some (disk w !! p)
          ∧ read_fault E p = Some e) →
       fix_file E p w
       = (Returned tt,
          World (disk w)
            (trace w
             ++ [Open p ModeR;
                 Print (lit "Error processing " ++ p ++ lit ": " ++ exn_str e)])))
  ∧ (∀ p w text e,
       read_ok E p w text → modified (scanner (readlines text)) = true →
       open_fault E p ModeW = Some e →
       fix_file E p w
       = (Returned tt,
          World (disk w)
            (trace w
             ++ [Open p ModeR; Open p ModeW;
                 Print (lit "Error processing " ++ p ++ lit ": " ++ exn_str e)])))
  ∧ (∀ p w text n torn e,
       read_ok E p w text → modified (scanner (readlines text)) = true →
       open_fault E p ModeW = None → write_fault E p = Some (n, torn, e) →
       let part :=
         take n (join (new_lines (scanner (readlines text)))) ++ (stray <$> torn) in
       fix_file E p w
       = (Returned tt,
          World (put E p part (disk w))
            (trace w
             ++ [Open p ModeR; Open p ModeW; Wrote p part;
                 Print (lit "Error processing " ++ p ++ lit ": " ++ exn_str e)])))
  ∧ (∀ w, main E w
          = (Returned tt, foldl (λ w p, (fix_file E p w).2) w (manifests E))).
Proof.
  intros HE Hc. pose proof HE as (Hn & Ho & Hr & Hw).
  split; [intros p w; by apply fix_file_returns|]. split; [|split; [|split]].
  - intros p w e Hfail.
    assert ((read_lines E p w).1 = Raised e ∧ is_Exception e = true) as [Hrd He].
    { run_body. destruct Hfail as [H|[(H1 & H2 & ->)|(H1 & [t H2] & H3)]].
      - rewrite H. split; [done | by eapply Ho].
      - rewrite H1. io_step. rewrite H2. split; [done | apply Hn].
      - rewrite H1. io_step. rewrite H2, H3. split; [done | by eapply Hr]. }
    rewrite (fix_file_caught E p w e _ He (body_read_raises E p w e Hrd) (Hc _)).
    cbn [disk trace]. by rewrite <- app_assoc.
  - intros p w text e Hrd Hm Hop.
    rewrite (fix_file_caught E p w e _ (Ho _ _ _ Hop)
               (body_open_w_fails E p w text e Hrd Hm Hop) (Hc _)).
    cbn [disk trace]. by rewrite <- app_assoc.
  - intros p w text n torn e Hrd Hm Hop Hwf part.
    rewrite (fix_file_caught E p w e _ (Hw _ _ _ _ Hwf)
               (body_write_fails E p w text n torn e Hrd Hm Hop Hwf) (Hc _)).
    cbn [disk trace]. by rewrite <- app_assoc.
  - intros w. by apply main_runs_all.
Qed.

Lemma write_fails_io_failures : io_failures write_fails.
Proof.
  split; [done|]. split; [done|]. split; [done|]. by intros p n torn e [= _ _ <-].
Defined.

Lemma write_fails_console_ok : console_ok write_fails.
Proof. done. Defined.

Lemma C7_failures_caught_per_file_witness :
  io_failures write_fails ∧ console_ok write_fails
  ∧ (fix_file write_fails sample_path sample_world).1 = Returned tt.
Proof.
  split; [exact write_fails_io_failures|]. split; [exact write_fails_console_ok|].
  exact (proj1 (C7_failures_caught_per_file write_fails write_fails_io_failures
                  write_fails_console_ok)
           sample_path sample_world).
Defined.

(** C7 as stated fails: the first manifest cannot be opened, the failure is
    caught, and the handler's own [print] fails on a closed console; that
    [OSError] leaves [fix_file], nothing is reported, and the driver stops
    before it opens the second manifest. *)
Lemma C7_counterexample :
  open_fault closed_console sample_path ModeR
  = Some (OSError (lit "[Errno 13] Permission denied: " ++ repr_plain sample_path))
  ∧ manifests closed_console = [sample_path; other_path]
  ∧ fix_file closed_console sample_path busy_world
    = (Raised (OSError (lit "[Errno 9] Bad file descriptor")),
       World (disk busy_world) (trace busy_world ++ [Open sample_path ModeR]))
  ∧ main closed_console busy_world
    = (Raised (OSError (lit "[Errno 9] Bad file descriptor")),
       World (disk busy_world) (trace busy_world ++ [Open sample_path ModeR]))
  ∧ is_Exception (OSError (lit "[Errno 9] Bad file descriptor")) = true.
Proof. repeat split; by vm_compute. Qed.

(** C2: a manifest whose lines hold no dependency block is scanned without
    modification, the output lines are the input lines, and [fix_file] leaves
    the disk as it was and neither opens a file for writing nor writes. *)
Theorem C2_no_block_no_write (E : env) (file_path : list N) (w : world) (text : list N) :
  disk w !! file_path = Some text →
  count_blocks (readlines text) = 0%nat →
  let lines := readlines text in
  let st := scanner lines in
  let w' := (fix_file E file_path w).2 in
  modified st = false ∧ new_lines st = lines
  ∧ disk w' = disk w
  ∧ ∃ evs, trace w' = trace w ++ evs ∧ Forall (λ ev, is_write ev = false) evs.
Proof.
  intros Hd [Hm Ho]%count_zero_unmodified lines st w'.
  split; [done|]. split; [done|]. unfold w'. split.
  - by rewrite fix_file_disk, (body_unmodified E file_path w text).
  - destruct (fix_file_trace E file_path w) as (tail & -> & Ht).
    rewrite (body_unmodified E file_path w text) by done. cbn [trace].
    rewrite <- app_assoc. eexists. split; [done|]. by constructor.
Qed.

Lemma C2_no_block_no_write_witness :
  disk plain_world !! sample_path = Some (join plain_manifest)
  ∧ count_blocks (readlines (join plain_manifest)) = 0%nat
  ∧ disk (fix_file quiet sample_path plain_world).2 = disk plain_world.
Proof.
  assert (disk plain_world !! sample_path = Some (join plain_manifest)) as Hd
    by (vm_compute; reflexivity).
  assert (count_blocks (readlines (join plain_manifest)) = 0%nat) as Hc
    by (vm_compute; reflexivity).
  split; [exact Hd|]. split; [exact Hc|].
  exact (proj1 (proj2 (proj2
    (C2_no_block_no_write quiet sample_path plain_world (join plain_manifest) Hd Hc)))).
Defined.

(** On lines that end with their newline, the text read is not even a
    prefix of the text written back. *)
Lemma join_not_prefix lines :
  terminated lines → mod_from false lines = true →
  ¬ join lines `prefix_of` join (out_from false lines).
Proof.
  induction lines as [|l rest Hb IH|l n rest r Hp Hn IH] using scan_ind.
  - done.
  - intros Ht%terminated_tail Hm. rewrite mod_keep in Hm by done.
    rewrite out_keep by done. rewrite !join_cons.
    intros Hpre%prefix_app_inv. by apply IH.
  - intros [Hlast _] _. rewrite (out_block l n rest r) by done.
    rewrite !join_cons.
    apply pinned_inv in Hp as (k & v & Hk & Hs & ->).
    destruct (name_line_split l k v Hk Hs) as (ws2 & _ & Hb2 & He).
    destruct (entry_facts k v Hk) as (_ & _ & _ & _ & _ & (d & v' & -> & Hd) & _).
    rewrite He in Hlast. rewrite He at 1.
    change (lit ": ") with ([COLON] ++ [32%N]).
    change (lit ":") with [COLON] in *.
    rewrite <- !app_assoc. intros Hpre.
    do 3 apply prefix_app_inv in Hpre.
    rewrite !last_app in Hlast.
    destruct ws2 as [|c1 [|c2 ws2]].
    + simpl in Hlast. by destruct (last k).
    + simpl in Hlast. injection Hlast as ->. simpl in Hpre.
      by apply prefix_cons_inv_1 in Hpre.
    + simpl in Hpre. apply prefix_cons_inv_2, prefix_cons_inv_1 in Hpre as ->.
      apply Forall_cons in Hb2 as [_ [Hc2 _]%Forall_cons]. congruence.
Qed.

(** What a failed write leaves is not the text that was read. *)
Lemma original_lost text n torn :
  decoded text → modified (scanner (readlines text)) = true →
  take n (join (new_lines (scanner (readlines text)))) ++ (stray <$> torn) ≠ text.
Proof.
  rewrite scanner_mod, scanner_out. intros Hdec Hm Heq.
  destruct torn as [|b torn].
  - rewrite app_nil_r in Heq.
    assert (CR ∉ join (out_from false (readlines text))) as Hcr.
    { apply out_no_CR. unfold readlines. rewrite splitlines_join.
      apply universal_newlines_no_CR. }
    assert (CR ∉ text) as Hcr'.
    { rewrite <- Heq. intros Hin. apply Hcr. by eapply subseteq_take. }
    unfold readlines in *. rewrite universal_newlines_id in * by done.
    apply (join_not_prefix (splitlines text)); [apply splitlines_terminated | done |].
    rewrite splitlines_join. rewrite <- Heq at 1. apply prefix_take.
  - rewrite <- Heq in Hdec. unfold decoded in Hdec.
    apply Forall_app in Hdec as [_ Hdec]. rewrite fmap_cons in Hdec.
    apply Forall_cons in Hdec as [Hb _]. unfold stray in Hb. lia.
Qed.

(** C8 (amended): the rewrite is all-or-nothing only up to the moment the
    file is open for writing. When reading fails, when the scanner modifies
    nothing and when the file cannot be opened for writing, the manifest
    keeps its original text; when no file operation fails the manifest holds
    the full new text. A write failure after the file was opened for writing
    leaves the first [n] whole characters of the new text and the bytes of a
    torn character, and the original text is lost. *)
Theorem C8_commit_outcomes (E : env) (p : list N) (w : world) (text : list N) :
  disk w !! p = Some text →
  let st := scanner (readlines text) in
  let new_text := join (new_lines st) in
  let after := disk (fix_file E p w).2 !! p in
  (is_Some (open_fault E p ModeR) ∨ is_Some (read_fault E p) → after = Some text)
  ∧ (modified st = false → after = Some text)
  ∧ (is_Some (open_fault E p ModeW) → after = Some text)
  ∧ (no_faults_at E p → modified st = true → after = Some new_text)
  ∧ (write_fault E p = None → after = Some text ∨ after = Some new_text)
  ∧ (∀ n torn e,
       read_ok E p w text → modified st = true →
       open_fault E p ModeW = None → write_fault E p = Some (n, torn, e) →
       after = Some (take n new_text ++ (stray <$> torn))
       ∧ (decoded text → after ≠ Some text)).
Proof.
  intros Hd st new_text after. unfold after, new_text, st. clear after new_text st.
  rewrite fix_file_disk.
  assert (∀ e, (read_lines E p w).1 = Raised e →
               disk (fix_file_body E p w).2 !! p = Some text) as Hread.
  { intros e Hr. by rewrite (body_read_raises E p w e Hr). }
  assert (modified (scanner (readlines text)) = false →
          disk (fix_file_body E p w).2 !! p = Some text) as Hsame.
  { intros Hm. by rewrite (body_unmodified E p w text Hd Hm). }
  assert (∀ e, read_ok E p w text → modified (scanner (readlines text)) = true →
               open_fault E p ModeW = Some e →
               disk (fix_file_body E p w).2 !! p = Some text) as Hopen.
  { intros e Hr Hm Ho. by rewrite (body_open_w_fails E p w text e Hr Hm Ho). }
  assert (read_ok E p w text → modified (scanner (readlines text)) = true →
          open_fault E p ModeW = None → write_fault E p = None →
          disk (fix_file_body E p w).2 !! p
          = Some (join (new_lines (scanner (readlines text))))) as Hfull.
  { intros Hr Hm Ho Hw. rewrite (body_write_ok E p w text Hr Hm Ho Hw).
    destruct (print_world E (lit "Fixed " ++ p)
                (World (put E p (join (new_lines (scanner (readlines text)))) (disk w))
                   (trace w ++ [Open p ModeR; Open p ModeW;
                      Wrote p (join (new_lines (scanner (readlines text))))])))
      as [-> _].
    cbn [disk]. apply put_lookup_self. }
  assert (∀ n torn e, read_ok E p w text →
            modified (scanner (readlines text)) = true →
            open_fault E p ModeW = None → write_fault E p = Some (n, torn, e) →
            disk (fix_file_body E p w).2 !! p
            = Some (take n (join (new_lines (scanner (readlines text))))
                    ++ (stray <$> torn))) as Hpart.
  { intros n torn e Hr Hm Ho Hw.
    rewrite (body_write_fails E p w text n torn e Hr Hm Ho Hw).
    cbn [snd disk]. apply put_lookup_self. }
  (* reading: it fails, or it gives [text] *)
  assert ((∃ e, (read_lines E p w).1 = Raised e
                ∧ (is_Some (open_fault E p ModeR) ∨ is_Some (read_fault E p)))
          ∨ read_ok E p w text) as Hcases.
  { destruct (open_fault E p ModeR) as [e|] eqn:Ho.
    { left. exists e. split; [|left; by eexists]. run_body. by rewrite Ho. }
    destruct (read_fault E p) as [e|] eqn:Hr.
    { left. exists e. split; [|right; by eexists]. run_body. rewrite Ho. io_step.
      by rewrite Hd, Hr. }
    by right. }
  split.
  { intros Hfail. destruct Hcases as [(e & Hr & _)|(Ho & _ & Hr)]; [by eapply Hread|].
    destruct Hfail as [[? ?]|[? ?]]; congruence. }
  split; [done|]. split.
  { intros [e Ho]. destruct Hcases as [(e' & Hr & _)|Hr]; [by eapply Hread|].
    destruct (modified (scanner (readlines text))) eqn:Hm; [by eapply Hopen | auto]. }
  split.
  { intros (Hor & Hrf & How & Hwf) Hm. by apply Hfull. }
  split.
  { intros Hwf. destruct Hcases as [(e' & Hr & _)|Hr]; [left; by eapply Hread|].
    destruct (modified (scanner (readlines text))) eqn:Hm; [|left; auto].
    destruct (open_fault E p ModeW) as [e|] eqn:Ho; [left; by eapply Hopen|].
    right. by apply Hfull. }
  intros n torn e Hr Hm Ho Hwf. rewrite (Hpart n torn e Hr Hm Ho Hwf).
  split; [done|]. intros Hdec [= Heq]. by eapply original_lost.
Qed.

Lemma C8_commit_outcomes_witness :
  disk sample_world !! sample_path = Some sample_text
  ∧ read_ok write_fails sample_path sample_world sample_text
  ∧ disk (fix_file write_fails sample_path sample_world).2 !! sample_path
    = Some (take 0 (join (new_lines (scanner (readlines sample_text))))
            ++ (stray <$> [])).
Proof.
  assert (disk sample_world !! sample_path = Some sample_text) as Hd
    by (vm_compute; reflexivity).
  assert (read_ok write_fails sample_path sample_world sample_text) as Hr
    by (split; [reflexivity | split; [exact Hd | reflexivity]]).
  split; [exact Hd|]. split; [exact Hr|].
  refine (proj1 (proj2 (proj2 (proj2 (proj2 (proj2
    (C8_commit_outcomes write_fails sample_path sample_world sample_text Hd)))))
    0%nat [] (OSError (lit "[Errno 5] Input/output error")) Hr _ eq_refl eq_refl)).
  vm_compute; reflexivity.
Defined.

(** C8 as stated fails: the manifest is opened for writing, which empties it,
    the write then fails, and the file is left empty: it holds neither its
    original text nor the new text. *)
Lemma C8_counterexample :
  let new_text := join (new_lines (scanner (readlines sample_text))) in
  let after := disk (fix_file write_fails sample_path sample_world).2 !! sample_path in
  disk sample_world !! sample_path = Some sample_text
  ∧ (write_lines write_fails sample_path (new_lines (scanner (readlines sample_text)))
       sample_world).1
    = Raised (OSError (lit "[Errno 5] Input/output error"))
  ∧ after = Some []
  ∧ after ≠ Some sample_text
  ∧ after ≠ Some new_text.
Proof. repeat split; by vm_compute. Qed.









(** ** Further properties of the line scanner *)

(** The scan of a prefix stands on its own also when the prefix does not end
    with a name line. *)
Lemma scan_app_last pre x rest :
  has_path x = false ∨ (∀ l0, last pre = Some l0 → pinned l0 = None) →
  out_from false (pre ++ x :: rest) = out_from false pre ++ out_from false (x :: rest)
  ∧ mod_from false (pre ++ x :: rest)
    = mod_from false pre || mod_from false (x :: rest).
Proof.
  induction pre as [|l pre Hb IH|l n pre r Hp Hn IH] using scan_ind; intros H.
  - done.
  - assert (block l (pre ++ x :: rest) = None) as Hb'.
    { destruct pre as [|n pre]; [|exact Hb].
      destruct H as [Hx|Hl]; [by apply block_no_path|].
      apply block_not_pinned, Hl. done. }
    destruct IH as [IHo IHm].
    { destruct H as [Hx|Hl]; [by left|]. right. intros l0 Hl0. apply Hl.
      destruct pre as [|n pre]; [done|]. by rewrite last_cons_cons. }
    rewrite <- app_comm_cons.
    rewrite (out_keep l (pre ++ _)), (mod_keep l (pre ++ _)) by done.
    rewrite (out_keep l pre), (mod_keep l pre) by done.
    by rewrite IHo, IHm.
  - destruct IH as [IHo IHm].
    { destruct H as [Hx|Hl]; [by left|]. right. intros l0 Hl0. apply Hl.
      destruct pre as [|m pre]; [done|]. by rewrite !last_cons_cons. }
    rewrite <- !app_comm_cons.
    rewrite !(out_block l n _ r), !(mod_block l n _ r) by done.
    by rewrite IHo.
Qed.

(** X1: for every entry [k ↦ v] of the table, a line whose trimmed form is
    [k:] followed by any line that contains "path:" is replaced, together
    with that line, by the leading whitespace of the name line, then [k],
    ": ", [v] and a newline; trailing whitespace of the name line is dropped,
    and the scan reports a modification. *)
Theorem X1_block_rewritten (pre post : list (list N)) (l n k v : list N) :
  replacements !! k = Some v → strip l = k ++ lit ":" → has_path n = true →
  let lines := pre ++ l :: n :: post in
  new_lines (scanner lines)
  = new_lines (scanner pre)
    ++ (leading_ws l ++ k ++ lit ": " ++ v ++ [LF]) :: new_lines (scanner post)
  ∧ modified (scanner lines) = true.
Proof.
  intros Hk Hs Hn lines. unfold lines. rewrite !scanner_out, !scanner_mod.
  pose proof (pinned_of_name l k v Hk Hs) as Hp.
  destruct (scan_app pre l (n :: post)) as [-> ->]; [by eapply pinned_no_path|].
  rewrite (out_block l n post _ Hp Hn), (mod_block l n post _ Hp Hn).
  split; [done | apply orb_true_r].
Qed.

Lemma X1_block_rewritten_witness :
  replacements !! lit "web3_universal_crypto" = Some (lit "^0.2.0")
  ∧ strip tabbed_name = lit "web3_universal_crypto" ++ lit ":"
  ∧ has_path comment_with_path = true
  ∧ new_lines (scanner ([ln "dependencies:"] ++ tabbed_name :: comment_with_path :: []))
    = new_lines (scanner [ln "dependencies:"])
      ++ (leading_ws tabbed_name ++ lit "web3_universal_crypto" ++ lit ": "
          ++ lit "^0.2.0" ++ [LF]) :: new_lines (scanner []).
Proof.
  assert (replacements !! lit "web3_universal_crypto" = Some (lit "^0.2.0")) as Hk
    by (vm_compute; reflexivity).
  assert (strip tabbed_name = lit "web3_universal_crypto" ++ lit ":") as Hs
    by (vm_compute; reflexivity).
  assert (has_path comment_with_path = true) as Hn by (vm_compute; reflexivity).
  split; [exact Hk|]. split; [exact Hs|]. split; [exact Hn|].
  exact (proj1 (X1_block_rewritten [ln "dependencies:"] [] tabbed_name
                  comment_with_path _ _ Hk Hs Hn)).
Defined.

(** X2: a line that is not a name line (its trimmed form does not end with a
    colon, or the name before the colon is not a key of the table) is copied
    unchanged, unless it contains "path:" and comes right after a name line;
    the lines before and after it are scanned on their own. *)
Theorem X2_other_line_kept (pre post : list (list N)) (l : list N) :
  ¬ name_line l →
  has_path l = false ∨ (∀ l0, last pre = Some l0 → ¬ name_line l0) →
  let lines := pre ++ l :: post in
  new_lines (scanner lines) = new_lines (scanner pre) ++ l :: new_lines (scanner post)
  ∧ modified (scanner lines) = modified (scanner pre) || modified (scanner post).
Proof.
  assert (∀ x, ¬ name_line x → pinned x = None) as Hnone.
  { intros x Hx. destruct (pinned x) eqn:Hp; [|done].
    exfalso. apply Hx, pinned_name_line. by eexists. }
  intros Hl H lines. unfold lines. rewrite !scanner_out, !scanner_mod.
  destruct (scan_app_last pre l post) as [-> ->].
  { destruct H as [?|H]; [by left|]. right. intros l0 Hl0. by apply Hnone, H. }
  by rewrite out_keep, mod_keep by by apply block_not_pinned, Hnone.
Qed.

Lemma X2_other_line_kept_witness :
  ¬ name_line unknown_name
  ∧ (has_path unknown_name = false
     ∨ (∀ l0, last [ln "dependencies:"] = Some l0 → ¬ name_line l0))
  ∧ new_lines (scanner ([ln "dependencies:"] ++ unknown_name :: [core_path]))
    = new_lines (scanner [ln "dependencies:"]) ++ unknown_name
        :: new_lines (scanner [core_path]).
Proof.
  assert (¬ name_line unknown_name) as Hl
    by (apply (bool_decide_eq_false_1 _); vm_compute; reflexivity).
  assert (has_path unknown_name = false
          ∨ (∀ l0, last [ln "dependencies:"] = Some l0 → ¬ name_line l0)) as H
    by (left; vm_compute; reflexivity).
  split; [exact Hl|]. split; [exact H|].
  exact (proj1 (X2_other_line_kept [ln "dependencies:"] [core_path] unknown_name Hl H)).
Defined.

Lemma out_provenance lines o :
  o ∈ out_from false lines →
  o ∈ lines
  ∨ ∃ l k v, l ∈ lines ∧ replacements !! k = Some v ∧ strip l = k ++ lit ":"
             ∧ o = leading_ws l ++ k ++ lit ": " ++ v ++ [LF].
Proof.
  induction lines as [|l rest Hb IH|l n rest r Hp Hn IH] using scan_ind.
  - by intros ?%elem_of_nil.
  - rewrite out_keep by done. intros [->|Ho]%elem_of_cons; [left; by left|].
    destruct (IH Ho) as [?|(l' & k & v & ? & ?)].
    + left. by right.
    + right. exists l', k, v. split; [by right | done].
  - rewrite (out_block l n rest r) by done.
    intros [->|Ho]%elem_of_cons.
    + right. apply pinned_inv in Hp as (k & v & Hk & Hs & ->).
      exists l, k, v. split; [by left | done].
    + destruct (IH Ho) as [?|(l' & k & v & ? & ?)].
      * left. right. by right.
      * right. exists l', k, v. split; [right; by right | done].
Qed.

(** X3: the scanner invents nothing: every output line is an input line, or
    it is the version line of a table entry [k ↦ v] built from an input name
    line [l] with trimmed form [k:] and carrying the leading whitespace of
    [l]. *)
Theorem X3_output_provenance (lines : list (list N)) (o : list N) :
  o ∈ new_lines (scanner lines) →
  o ∈ lines
  ∨ ∃ l k v, l ∈ lines ∧ replacements !! k = Some v ∧ strip l = k ++ lit ":"
             ∧ o = leading_ws l ++ k ++ lit ": " ++ v ++ [LF].
Proof. rewrite scanner_out. apply out_provenance. Qed.

Lemma X3_output_provenance_witness :
  core_pinned ∈ new_lines (scanner two_blocks)
  ∧ (core_pinned ∈ two_blocks
     ∨ ∃ l k v, l ∈ two_blocks ∧ replacements !! k = Some v
                ∧ strip l = k ++ lit ":"
                ∧ core_pinned = leading_ws l ++ k ++ lit ": " ++ v ++ [LF]).
Proof.
  assert (core_pinned ∈ new_lines (scanner two_blocks)) as Ho
    by (apply (bool_decide_unpack _); vm_compute; exact I).
  split; [exact Ho|]. exact (X3_output_provenance two_blocks core_pinned Ho).
Defined.

(** X4: the modified flag is exact: the scanner reports no modification
    exactly when its output is its input. *)
Theorem X4_modified_exact (lines : list (list N)) :
  modified (scanner lines) = false ↔ new_lines (scanner lines) = lines.
Proof.
  rewrite scanner_mod, scanner_out. split; [apply out_unmodified|].
  intros Heq. apply not_true_is_false. intros Hm%mod_count.
  pose proof (out_length_count lines) as Hlen. rewrite Heq in Hlen. lia.
Qed.

Lemma count_from_half lines : (2 * count_from lines ≤ length lines)%nat.
Proof.
  induction lines as [|l rest Hb IH|l n rest r Hp Hn IH] using scan_ind.
  - done.
  - apply block_opens in Hb. cbn [count_from length]. rewrite Hb. lia.
  - cbn [count_from length].
    rewrite (opens_pinned l n rest r), (opens_after_path n rest) by done. lia.
Qed.

(** X5: for every input the output has one line fewer per dependency block,
    and blocks do not overlap: twice their number is at most the number of
    input lines, so at most half of the lines disappear. *)
Theorem X5_line_count (lines : list (list N)) :
  (length (new_lines (scanner lines)) + count_blocks lines = length lines)%nat
  ∧ (2 * count_blocks lines ≤ length lines)%nat
  ∧ (length lines ≤ 2 * length (new_lines (scanner lines)))%nat.
Proof.
  rewrite scanner_out, count_blocks_rec.
  pose proof (out_length_count lines). pose proof (count_from_half lines). lia.
Qed.

(** ** Further properties of [fix_file] *)

Lemma fix_file_unmodified E p w text :
  no_faults_at E p → disk w !! p = Some text →
  modified (scanner (readlines text)) = false →
  fix_file E p w = (Returned tt, World (disk w) (trace w ++ [Open p ModeR])).
Proof.
  intros (Hor & Hr & _) Hd Hm. run_io. rewrite Hor. io_step.
  by rewrite Hd, Hr, Hm.
Qed.

Lemma no_faults_read_ok E p w text :
  no_faults_at E p → disk w !! p = Some text → read_ok E p w text.
Proof. by intros (? & ? & _) ?. Qed.

Lemma fix_file_written E p w text :
  no_faults_at E p → disk w !! p = Some text →
  modified (scanner (readlines text)) = true →
  print_fault E (lit "Fixed " ++ p) = None →
  fix_file E p w
  = (Returned tt,
     World (put E p (join (new_lines (scanner (readlines text)))) (disk w))
       (trace w ++ [Open p ModeR; Open p ModeW;
                    Wrote p (join (new_lines (scanner (readlines text))));
                    Print (fixed_line p)])).
Proof.
  intros HE Hd Hm Hp. pose proof HE as (_ & _ & How & Hwf).
  unfold fix_file, try_except.
  rewrite (body_write_ok E p w text (no_faults_read_ok E p w text HE Hd) Hm How Hwf).
  rewrite print_ok by done. cbn [disk trace]. by rewrite <- app_assoc.
Qed.

Lemma fix_file_written_disk E p w text :
  no_faults_at E p → disk w !! p = Some text →
  modified (scanner (readlines text)) = true →
  disk (fix_file E p w).2
  = put E p (join (new_lines (scanner (readlines text)))) (disk w).
Proof.
  intros HE Hd Hm. pose proof HE as (_ & _ & How & Hwf).
  rewrite fix_file_disk.
  rewrite (body_write_ok E p w text (no_faults_read_ok E p w text HE Hd) Hm How Hwf).
  by destruct (print_world E (lit "Fixed " ++ p)
                 (World (put E p (join (new_lines (scanner (readlines text)))) (disk w))
                    (trace w ++ [Open p ModeR; Open p ModeW;
                       Wrote p (join (new_lines (scanner (readlines text))))])))
    as [-> _].
Qed.

(** X6: when no file operation fails, the scanner modifies the manifest and
    the console takes the line, [fix_file] returns normally, the file (under
    every path that names it) holds the concatenated output lines, and the
    effects are, in this order: open for reading, open for writing, the
    write of the whole new text, and the line "Fixed" followed by the path. *)
Theorem X6_rewrite_succeeds (E : env) (p : list N) (w : world) (text : list N) :
  no_faults_at E p → disk w !! p = Some text →
  modified (scanner (readlines text)) = true →
  print_fault E (lit "Fixed " ++ p) = None →
  let new_text := join (new_lines (scanner (readlines text))) in
  fix_file E p w
  = (Returned tt,
     World (put E p new_text (disk w))
       (trace w ++ [Open p ModeR; Open p ModeW; Wrote p new_text;
                    Print (lit "Fixed " ++ p)]))
  ∧ disk (fix_file E p w).2 !! p = Some new_text.
Proof.
  intros HE Hd Hm Hp new_text. rewrite (fix_file_written E p w text) by done.
  split; [done|]. cbn [snd disk]. apply put_lookup_self.
Qed.

Lemma quiet_no_faults p : no_faults_at quiet p.
Proof. done. Defined.

Lemma X6_rewrite_succeeds_witness :
  no_faults_at quiet sample_path
  ∧ disk sample_world !! sample_path = Some sample_text
  ∧ modified (scanner (readlines sample_text)) = true
  ∧ print_fault quiet (lit "Fixed " ++ sample_path) = None
  ∧ (fix_file quiet sample_path sample_world).1 = Returned tt.
Proof.
  assert (disk sample_world !! sample_path = Some sample_text) as Hd
    by (vm_compute; reflexivity).
  assert (modified (scanner (readlines sample_text)) = true) as Hm
    by (vm_compute; reflexivity).
  split; [exact (quiet_no_faults sample_path)|]. split; [exact Hd|].
  split; [exact Hm|]. split; [reflexivity|].
  exact (f_equal fst (proj1 (X6_rewrite_succeeds quiet sample_path sample_world
                               sample_text (quiet_no_faults sample_path) Hd Hm
                               eq_refl))).
Defined.

(** X7: when reading the manifest fails with an [Exception] (the file is
    missing, cannot be opened, or cannot be decoded) and the console takes
    the error line, [fix_file] returns normally, leaves every file as it
    was, never opens the file for writing, and prints one line: "Error
    processing", the path and the detail of the exception. *)
Theorem X7_read_failure (E : env) (p : list N) (w : world) (e : exn) :
  (read_lines E p w).1 = Raised e → is_Exception e = true →
  print_fault E (lit "Error processing " ++ p ++ lit ": " ++ exn_str e) = None →
  fix_file E p w
  = (Returned tt,
     World (disk w)
       (trace w ++ [Open p ModeR;
                    Print (lit "Error processing " ++ p ++ lit ": " ++ exn_str e)])).
Proof.
  intros Hr He Hp.
  rewrite (fix_file_caught E p w e _ He (body_read_raises E p w e Hr) Hp).
  cbn [disk trace]. by rewrite <- app_assoc.
Qed.

Lemma X7_read_failure_witness :
  (read_lines quiet other_path sample_world).1 = Raised (not_found quiet other_path)
  ∧ is_Exception (not_found quiet other_path) = true
  ∧ disk (fix_file quiet other_path sample_world).2 = disk sample_world.
Proof.
  assert ((read_lines quiet other_path sample_world).1
          = Raised (not_found quiet other_path)) as Hr
    by (vm_compute; reflexivity).
  split; [exact Hr|]. split; [reflexivity|].
  exact (f_equal (λ r, disk r.2)
           (X7_read_failure quiet other_path sample_world _ Hr eq_refl eq_refl)).
Defined.

(** What the [try] block does to the disk: nothing, or a [put] at its file. *)
Lemma body_disk E p w :
  disk (fix_file_body E p w).2 = disk w
  ∨ ∃ data, is_Some (disk w !! p)
            ∧ disk (fix_file_body E p w).2 = put E p data (disk w).
Proof.
  destruct (disk w !! p) as [text|] eqn:Hd.
  2:{ left. run_body. destruct (open_fault E p ModeR); io_step; [done|].
      by rewrite Hd. }
  destruct (open_fault E p ModeR) as [e|] eqn:Hor.
  { left. rewrite (body_read_raises E p w e); [done|]. run_body. by rewrite Hor. }
  destruct (read_fault E p) as [e|] eqn:Hrf.
  { left. rewrite (body_read_raises E p w e); [done|]. run_body. rewrite Hor.
    io_step. by rewrite Hd, Hrf. }
  assert (read_ok E p w text) as Hr by done.
  destruct (modified (scanner (readlines text))) eqn:Hm.
  2:{ left. by rewrite (body_unmodified E p w text). }
  destruct (open_fault E p ModeW) as [e|] eqn:How.
  { left. by rewrite (body_open_w_fails E p w text e). }
  right. destruct (write_fault E p) as [[[n torn] e]|] eqn:Hwf.
  - eexists. split; [by eexists|].
    by rewrite (body_write_fails E p w text n torn e).
  - eexists. split; [by eexists|].
    rewrite (body_write_ok E p w text) by done. by rewrite print_disk.
Qed.

Lemma fix_file_frame E p w q :
  q ∉ names_of E p → disk (fix_file E p w).2 !! q = disk w !! q.
Proof.
  intros Hq. rewrite fix_file_disk.
  destruct (body_disk E p w) as [->|(data & _ & ->)]; [done|].
  by apply put_lookup_other.
Qed.

Lemma put_dom E p data d :
  dom (put E p data d) = list_to_set (names_of E p) ∪ dom d.
Proof.
  unfold put, names_of. induction (p :: os_links E p) as [|x xs IH]; simpl.
  - by rewrite (left_id_L ∅ (∪)).
  - by rewrite dom_insert_L, IH, (assoc_L (∪)).
Qed.

(** X8: [fix_file] changes nothing but the file it is given: a path that
    neither is its path nor names the same file (no link to it, no other
    spelling of it) keeps its content, whatever fails; no file disappears,
    and no path appears other than a name of that file. *)
Theorem X8_only_its_file (E : env) (p : list N) (w : world) :
  (∀ q, q ≠ p → q ∉ os_links E p →
        disk (fix_file E p w).2 !! q = disk w !! q)
  ∧ dom (disk w) ⊆ dom (disk (fix_file E p w).2)
  ∧ dom (disk (fix_file E p w).2)
    ⊆ dom (disk w) ∪ list_to_set (os_links E p).
Proof.
  split.
  - intros q Hq Hl. apply fix_file_frame. unfold names_of.
    by intros [?|?]%elem_of_cons.
  - rewrite fix_file_disk.
    destruct (body_disk E p w) as [->|(data & Hp%elem_of_dom & ->)].
    { split; [done | apply union_subseteq_l]. }
    rewrite put_dom. unfold names_of. split; [apply union_subseteq_r|].
    rewrite list_to_set_cons.
    intros x [[->%elem_of_singleton|Hx]%elem_of_union|Hx]%elem_of_union;
      apply elem_of_union; auto.
Qed.

Lemma X8_only_its_file_witness :
  other_path ≠ sample_path ∧ (other_path ∉ os_links linked sample_path)
  ∧ disk (fix_file linked sample_path linked_world).2 !! other_path
    = disk linked_world !! other_path.
Proof.
  assert (other_path ≠ sample_path) as Hq
    by (apply (bool_decide_eq_false_1 _); vm_compute; reflexivity).
  assert (other_path ∉ os_links linked sample_path) as Hl
    by (apply (bool_decide_unpack _); vm_compute; exact I).
  split; [exact Hq|]. split; [exact Hl|].
  exact (proj1 (X8_only_its_file linked sample_path linked_world) other_path Hq Hl).
Defined.

(** ** Reading back what was written *)

Lemma replacements_one_line k v :
  replacements !! k = Some v → LF ∉ k ++ lit ": " ++ v.
Proof.
  intros H%replacements_lookup%list_elem_of_In.
  assert (forallb (λ kv, bool_decide (LF ∉ kv.1 ++ lit ": " ++ kv.2))
            replacements_items = true) as Hc by (vm_compute; reflexivity).
  rewrite forallb_forall in Hc. specialize (Hc _ H).
  by apply bool_decide_eq_true in Hc.
Qed.

Lemma full_line_last l : full_line l → last_line l.
Proof. by left. Qed.

Lemma text_lines_cons l rest : full_line l → text_lines rest → text_lines (l :: rest).
Proof. intros Hl Hr. simpl. destruct rest; [by left | done]. Qed.

Lemma text_lines_tail l rest : text_lines (l :: rest) → text_lines rest.
Proof. simpl. destruct rest; [done | by intros [_ ?]]. Qed.

Lemma text_lines_head l n rest : text_lines (l :: n :: rest) → full_line l.
Proof. by intros [? _]. Qed.

Lemma splitlines_full body s :
  LF ∉ body → splitlines (body ++ [LF] ++ s) = (body ++ [LF]) :: splitlines s.
Proof.
  induction body as [|c body IH]; intros Hb; [done|].
  apply not_elem_of_cons in Hb as [Hc Hb]. cbn [app splitlines].
  destruct (N.eqb_spec c LF) as [->|_]; [done|]. simpl in IH. by rewrite IH.
Qed.

Lemma splitlines_last l : l ≠ [] → LF ∉ l → splitlines l = [l].
Proof.
  induction l as [|c l IH]; [done|]. intros _ [Hc Hl]%not_elem_of_cons.
  cbn [splitlines]. destruct (N.eqb_spec c LF) as [->|_]; [done|].
  destruct l as [|d l]; [done|]. by rewrite IH.
Qed.

(** Splitting the concatenation of well-formed lines gives the lines back. *)
Lemma splitlines_of_join ls : text_lines ls → splitlines (join ls) = ls.
Proof.
  induction ls as [|l rest IH]; [done|]. intros Ht. rewrite join_cons.
  destruct rest as [|n rest].
  - unfold join. simpl. rewrite app_nil_r.
    destruct Ht as [(body & -> & Hb)|[Hne Hl]]; [|by apply splitlines_last].
    rewrite <- (app_nil_r (body ++ [LF])) at 1. rewrite <- app_assoc.
    by rewrite splitlines_full.
  - destruct Ht as [(body & -> & Hb) Ht]. rewrite <- app_assoc.
    by rewrite splitlines_full, IH.
Qed.

Lemma splitlines_text_lines s : text_lines (splitlines s).
Proof.
  induction s as [|c s IH]; [done|]. cbn [splitlines].
  destruct (N.eqb_spec c LF) as [->|Hc].
  - apply text_lines_cons; [|done]. exists []. split; [done|]. by intros ?%elem_of_nil.
  - destruct (splitlines s) as [|l ls]; simpl.
    + right. split; [done|]. by intros [?|?%elem_of_nil]%elem_of_cons.
    + destruct ls as [|l' ls].
      * destruct IH as [(body & -> & Hb)|[Hne Hl]].
        -- left. exists (c :: body). split; [done|].
           by intros [?|?]%elem_of_cons.
        -- right. split; [done|]. by intros [?|?]%elem_of_cons.
      * destruct IH as [(body & -> & Hb) IH]. split; [|done].
        exists (c :: body). split; [done|]. by intros [?|?]%elem_of_cons.
Qed.

Lemma app_snoc_prefix {A} (a tl body : list A) x :
  tl ≠ [] → a ++ tl = body ++ [x] → ∃ mid, body = a ++ mid.
Proof.
  intros Hne He. destruct tl as [|y tl _] using rev_ind; [done|].
  rewrite app_assoc in He. apply app_inj_tail in He as [<- _]. by exists tl.
Qed.

(** A replacement line is a full line when the name line it comes from is. *)
Lemma pinned_full_line l r : full_line l → pinned l = Some r → full_line r.
Proof.
  intros (body & Hl & Hb) (k & v & Hk & Hs & ->)%pinned_inv.
  destruct (name_line_split l k v Hk Hs) as (ws2 & _ & _ & He).
  destruct (entry_facts k v Hk) as ((c & k' & -> & _) & _).
  exists (leading_ws l ++ (c :: k') ++ lit ": " ++ v).
  split; [by rewrite <- !app_assoc|].
  rewrite not_elem_of_app. split; [|by apply replacements_one_line].
  intros Hin. apply Hb.
  assert (leading_ws l ++ ((c :: k') ++ lit ":") ++ ws2 = body ++ [LF]) as Heq
    by congruence.
  apply app_snoc_prefix in Heq as [mid ->]; [|done].
  apply elem_of_app. by left.
Qed.

Lemma out_text_lines lines : text_lines lines → text_lines (out_from false lines).
Proof.
  induction lines as [|l rest Hb IH|l n rest r Hp Hn IH] using scan_ind.
  - done.
  - intros Ht. rewrite out_keep by done.
    destruct rest as [|n rest]; [done|].
    apply text_lines_cons; [by eapply text_lines_head | by apply IH, (text_lines_tail l)].
  - intros Ht. rewrite (out_block l n rest r) by done.
    apply text_lines_cons.
    + apply (pinned_full_line l); [by eapply text_lines_head | done].
    + by apply IH, (text_lines_tail n), (text_lines_tail l).
Qed.

Lemma readlines_written text :
  let new := new_lines (scanner (readlines text)) in
  (CR ∉ join new) ∧ readlines (join new) = new.
Proof.
  intros new. unfold new. rewrite scanner_out.
  assert (CR ∉ join (out_from false (readlines text))) as Hcr.
  { apply out_no_CR. unfold readlines. rewrite splitlines_join.
    apply universal_newlines_no_CR. }
  split; [done|]. unfold readlines at 1. rewrite universal_newlines_id by done.
  apply splitlines_of_join, out_text_lines, splitlines_text_lines.
Qed.

(** X9: the text [fix_file] writes has no carriage return, whatever line
    ends the manifest had, and read back with [readlines] it gives exactly
    the lines the scanner produced. *)
Theorem X9_written_text_reads_back (text : list N) :
  let new := new_lines (scanner (readlines text)) in
  (CR ∉ join new) ∧ readlines (join new) = new.
Proof. apply readlines_written. Qed.

(** X10: a second run of [fix_file] on the same manifest, when nothing
    fails, only opens the file for reading: it writes nothing, prints
    nothing and leaves the disk as the first run left it. *)
Theorem X10_second_run_is_silent (E : env) (p : list N) (w : world) (text : list N) :
  no_faults_at E p → disk w !! p = Some text →
  let w1 := (fix_file E p w).2 in
  fix_file E p w1 = (Returned tt, World (disk w1) (trace w1 ++ [Open p ModeR])).
Proof.
  intros HE Hd w1. unfold w1.
  destruct (modified (scanner (readlines text))) eqn:Hm.
  - destruct (readlines_written text) as [_ Hrt].
    apply (fix_file_unmodified E p _ (join (new_lines (scanner (readlines text)))));
      [done | |].
    + rewrite (fix_file_written_disk E p w text) by done. apply put_lookup_self.
    + rewrite Hrt, scanner_mod, scanner_out. apply mod_out.
  - rewrite (fix_file_unmodified E p w text) by done. cbn [snd].
    by apply (fix_file_unmodified E p _ text).
Qed.

Lemma X10_second_run_is_silent_witness :
  no_faults_at quiet sample_path
  ∧ disk crlf_world !! sample_path = Some crlf_text
  ∧ (fix_file quiet sample_path (fix_file quiet sample_path crlf_world).2).1
    = Returned tt.
Proof.
  assert (disk crlf_world !! sample_path = Some crlf_text) as Hd
    by (vm_compute; reflexivity).
  split; [exact (quiet_no_faults sample_path)|]. split; [exact Hd|].
  exact (f_equal fst (X10_second_run_is_silent quiet sample_path crlf_world crlf_text
                        (quiet_no_faults sample_path) Hd)).
Defined.

(** ** Further properties of the driver *)

Lemma for_each_app {A} (body : A → IO unit) xs ys w :
  for_each (xs ++ ys) body w = (for_each xs body ;; for_each ys body) w.
Proof.
  revert w. induction xs as [|x xs IH]; intros w; [done|].
  cbn [app for_each]. unfold mbind, IO_bind in *.
  destruct (body x w) as [[[]|e] w1]; [apply IH | done].
Qed.

Lemma for_each_ext {A} (f g : A → IO unit) xs w :
  (∀ x w, f x w = g x w) → for_each xs f w = for_each xs g w.
Proof.
  intros H. revert w. induction xs as [|x xs IH]; intros w; [done|].
  simpl. unfold mbind, IO_bind. rewrite H.
  destruct (g x w) as [[[]|e] w1]; [apply IH | done].
Qed.

Lemma for_each_bind {A B} (g : A → list B) (body : B → IO unit) xs w :
  for_each (xs ≫= g) body w = for_each xs (λ x, for_each (g x) body) w.
Proof.
  revert w. induction xs as [|x xs IH]; intros w; [done|].
  rewrite bind_cons, for_each_app. simpl. unfold mbind, IO_bind.
  destruct (for_each (g x) body w) as [[[]|e] w1]; [apply IH | done].
Qed.

Lemma for_each_one (body : list N → IO unit) p w :
  for_each [p] body w = body p w.
Proof.
  simpl. unfold mbind, IO_bind, mret, IO_ret.
  by destruct (body p w) as [[[]|e] w1].
Qed.

Lemma main_flat E w : main E w = for_each (manifests E) (fix_file E) w.
Proof.
  unfold main, manifests. rewrite for_each_bind.
  apply for_each_ext. intros base w0. rewrite for_each_bind.
  apply for_each_ext. intros [[root dirs] files] w1.
  case_bool_decide; [by rewrite for_each_one | done].
Qed.

(** X11: the two nested loops of the driver amount to one loop: [fix_file]
    is run on the manifests in the order [os.walk] lists them under the
    first root, then under the second, one [pubspec.yaml] per directory that
    has one, and the run stops where an exception escapes [fix_file]. *)
Theorem X11_driver_is_one_loop (E : env) (w : world) :
  main E w = for_each (manifests E) (fix_file E) w.
Proof. apply main_flat. Qed.

Lemma for_each_frame E before w q :
  (∀ p, p ∈ before → q ∉ names_of E p) →
  disk (for_each before (fix_file E) w).2 !! q = disk w !! q.
Proof.
  revert w. induction before as [|p before IH]; intros w Hq; [done|].
  simpl. unfold mbind, IO_bind.
  pose proof (fix_file_frame E p w q (Hq p ltac:(by left))) as Hf.
  destruct (fix_file E p w) as [[[]|e] w1]; cbn [snd] in *; [|done].
  rewrite IH; [done|]. intros p' Hp'. apply Hq. by right.
Qed.

(** X12: the driver changes no file but the manifests it reaches: a path
    that is not [os.path.join(root, 'pubspec.yaml')] for a listed directory
    with a [pubspec.yaml], and that names none of these files (no link to
    one, no other spelling of one), keeps its content, whatever fails. *)
Theorem X12_driver_touches_manifests_only (E : env) (w : world) (q : list N) :
  (∀ p, p ∈ manifests E → q ≠ p ∧ q ∉ os_links E p) →
  disk (main E w).2 !! q = disk w !! q.
Proof.
  intros Hq. rewrite main_flat. apply for_each_frame.
  intros p [Hne Hl]%Hq. unfold names_of. by intros [?|?]%elem_of_cons.
Qed.

Lemma X12_driver_touches_manifests_only_witness :
  (∀ p, p ∈ manifests linked → other_path ≠ p ∧ other_path ∉ os_links linked p)
  ∧ disk (main linked linked_world).2 !! other_path = disk linked_world !! other_path.
Proof.
  assert (∀ p, p ∈ manifests linked
               → other_path ≠ p ∧ other_path ∉ os_links linked p) as Hq.
  { intros p Hp.
    assert (manifests linked = [sample_path]) as Hm by (vm_compute; reflexivity).
    rewrite Hm in Hp. apply list_elem_of_singleton in Hp as ->.
    split; [apply (bool_decide_eq_false_1 _) | apply (bool_decide_unpack _)];
      vm_compute; done. }
  split; [exact Hq|].
  exact (X12_driver_touches_manifests_only linked linked_world other_path Hq).
Defined.

(** The events of a [try] block that raises, and those of one that returns. *)
Lemma body_raised_silent E p w e w1 :
  fix_file_body E p w = (Raised e, w1) →
  ∃ evs, trace w1 = trace w ++ evs ∧ Forall (λ ev, is_print ev = false) evs.
Proof.
  run_body.
  destruct (open_fault E p ModeR); io_step.
  { intros [= <- <-]. eexists. split; [done|]. by repeat constructor. }
  destruct (disk w !! p) as [text|]; io_step.
  2:{ intros [= <- <-]. eexists. split; [done|]. by repeat constructor. }
  destruct (read_fault E p); io_step.
  { intros [= <- <-]. eexists. split; [done|]. by repeat constructor. }
  destruct (modified (scanner (readlines text))); io_step; [|done].
  destruct (open_fault E p ModeW); io_step.
  { intros [= <- <-]. cbn [trace]. rewrite <- !app_assoc.
    eexists. split; [done|]. by repeat constructor. }
  destruct (write_fault E p) as [[[n torn] e']|]; io_step.
  { intros [= <- <-]. cbn [trace]. rewrite <- !app_assoc.
    eexists. split; [done|]. by repeat constructor. }
  destruct (print_fault E (lit "Fixed " ++ p)); io_step; [|done].
  intros [= <- <-]. cbn [trace]. rewrite <- !app_assoc.
  eexists. split; [done|]. by repeat constructor.
Qed.



Lemma body_returned E p w text w1 :
  disk w !! p = Some text → fix_file_body E p w = (Returned tt, w1) →
  (modified (scanner (readlines text)) = false
   ∧ w1 = World (disk w) (trace w ++ [Open p ModeR]))
  ∨ (modified (scanner (readlines text)) = true
     ∧ w1 = World (put E p (join (new_lines (scanner (readlines text)))) (disk w))
              (trace w ++ [Open p ModeR; Open p ModeW;
                           Wrote p (join (new_lines (scanner (readlines text))));
                           Print (fixed_line p)])).
Proof.
  intros Hd. run_body.
  destruct (open_fault E p ModeR); io_step; [done|]. rewrite Hd.
  destruct (read_fault E p); io_step; [done|].
  destruct (modified (scanner (readlines text))); io_step.
  2:{ intros [= <-]. by left. }
  destruct (open_fault E p ModeW); io_step; [done|].
  destruct (write_fault E p) as [[[n torn] e']|]; io_step; [done|].
  destruct (print_fault E (lit "Fixed " ++ p)); io_step; [done|].
  intros [= <-]. right. split; [done|].
  by rewrite put_put, <- !app_assoc.
Qed.

(** X14: the line "Fixed" followed by the path is printed only for a
    manifest the scanner modified and only after the whole new text is in the
    file. *)
Theorem X14_fixed_means_written (E : env) (p : list N) (w : world)
    (text : list N) (evs : list event) :
  disk w !! p = Some text →
  trace (fix_file E p w).2 = trace w ++ evs →
  Print (lit "Fixed " ++ p) ∈ evs →
  modified (scanner (readlines text)) = true
  ∧ disk (fix_file E p w).2 !! p
    = Some (join (new_lines (scanner (readlines text)))).
Proof.
  intros Hd. unfold fix_file, try_except.
  destruct (fix_file_body E p w) as [[[]|e1] w1] eqn:Hb.
  - cbn [snd]. destruct (body_returned E p w text w1 Hd Hb) as [[Hm ->]|[Hm ->]];
      cbn [disk trace].
    + intros <-%app_inv_head [[=]|[]%elem_of_nil]%elem_of_cons.
    + intros _ _. split; [done|]. apply put_lookup_self.
  - destruct (body_raised_silent E p w e1 w1 Hb) as (evs1 & Ht1 & Hnp).
    assert (Print (lit "Fixed " ++ p) ∉ evs1) as Hnot.
    { intros Hin. rewrite Forall_forall in Hnp. by specialize (Hnp _ Hin). }
    destruct (is_Exception e1); cbn [snd].
    + destruct (print_world E (lit "Error processing " ++ p ++ lit ": " ++ exn_str e1) w1)
        as [_ [->| ->]]; rewrite Ht1.
      * by intros <-%app_inv_head ?.
      * rewrite <- app_assoc.
        intros <-%app_inv_head [?|[[=]|[]%elem_of_nil]%elem_of_cons]%elem_of_app.
        done.
    + rewrite Ht1. by intros <-%app_inv_head ?.
Qed.

Lemma X14_fixed_means_written_witness :
  disk sample_world !! sample_path = Some sample_text
  ∧ Print (lit "Fixed " ++ sample_path)
    ∈ trace (fix_file quiet sample_path sample_world).2
  ∧ modified (scanner (readlines sample_text)) = true.
Proof.
  assert (disk sample_world !! sample_path = Some sample_text) as Hd
    by (vm_compute; reflexivity).
  assert (Print (lit "Fixed " ++ sample_path)
          ∈ trace (fix_file quiet sample_path sample_world).2) as Hin.
  { rewrite (fix_file_written quiet sample_path sample_world sample_text
               (quiet_no_faults sample_path) Hd) by (vm_compute; reflexivity).
    cbn [snd trace]. do 3 right. left. }
  split; [exact Hd|]. split; [exact Hin|].
  exact (proj1 (X14_fixed_means_written quiet sample_path sample_world sample_text
                  (trace (fix_file quiet sample_path sample_world).2)
                  Hd eq_refl Hin)).
Defined.
